(** * The FluidSynth MIDI handler of dosbox-staging

    A shallow embedding of [src/midi/midi_fluidsynth.cpp]: the volume
    calibration ([SetMixerVolume]), the life cycle ([Open], [Close]), the
    MIDI dispatcher ([PlayMsg]) and the render loop ([MixerCallBack]).

    The synthesis engine, the soft limiter and the mixer are external
    collaborators of that file.  They appear here as the parameters of one
    section; the handler code is written against them exactly as the C++
    is written against their APIs. *)

From Stdlib Require Import ZArith Lia Bool.
From Stdlib Require Import Floats.SpecFloat.
From Stdlib Require Import Strings.Byte.
From stdpp Require Import base option list gmap strings.

Open Scope Z_scope.

(** ** IEEE-754 numbers

    C++ [float] is binary32 and [double] is binary64.  Both are carried by
    [spec_float]; the format only decides how a result is rounded. *)

Module IEEE.

(** Rounding a value of one format into another (a C++ [static_cast]
    between [float] and [double]); specials are kept as they are. *)
Definition cast (prec emax : Z) (x : spec_float) : spec_float :=
  match x with
  | S754_finite s m e => binary_round prec emax s m e
  | _ => x
  end.

Definition is_finite (x : spec_float) : bool :=
  match x with
  | S754_zero _ | S754_finite _ _ _ => true
  | S754_infinity _ | S754_nan => false
  end.

Definition is_zero (x : spec_float) : bool :=
  match x with
  | S754_zero _ => true
  | _ => false
  end.

End IEEE.

Module Float32.
Definition prec : Z := 24.
Definition emax : Z := 128.
Definition mul : spec_float -> spec_float -> spec_float := SFmul prec emax.
Definition div : spec_float -> spec_float -> spec_float := SFdiv prec emax.
Definition ltb : spec_float -> spec_float -> bool := SFltb.
Definition of_int (z : Z) : spec_float := binary_normalize prec emax z 0 false.
Definition of_double : spec_float -> spec_float := IEEE.cast prec emax.
End Float32.

Module Float64.
Definition prec : Z := 53.
Definition emax : Z := 1024.
Definition of_int (z : Z) : spec_float := binary_normalize prec emax z 0 false.
Definition of_float : spec_float -> spec_float := IEEE.cast prec emax.
End Float64.

Abbreviation float := spec_float.
Abbreviation double := spec_float.

Definition INT16_MAX : Z := 32767.

(** [std::min(a, b)] is [(b < a) ? b : a]. *)
Definition std_min (a b : float) : float :=
  if Float32.ltb b a then b else a.

(** ** [AudioFrame<float>] *)

Module AudioFrame.
Record t : Type := make { left : float; right : float }.
End AudioFrame.

(** ** The engine's settings object

    A FluidSynth settings object is a table from names to typed values. *)

Inductive setting : Type :=
| SetNum (v : double)
| SetInt (v : Z)
| SetStr (v : string).

(** ** Calls into the synthesizer made by the dispatcher *)

Inductive engine_call : Type :=
| fluid_synth_noteoff (chan key : Z)
| fluid_synth_noteon (chan key vel : Z)
| fluid_synth_key_pressure (chan key val : Z)
| fluid_synth_cc (chan ctrl val : Z)
| fluid_synth_program_change (chan program : Z)
| fluid_synth_channel_pressure (chan val : Z)
| fluid_synth_pitch_bend (chan val : Z).

(** What the handler does that is visible outside of it, in order. *)
Inductive event : Type :=
| EngineCall (c : engine_call)
| LOG_MSG (text : string) (arg : option Z)
| DEBUG_LOG_MSG (text : string) (arg : option Z).

Definition engine_calls (tr : list event) : list engine_call :=
  omap (fun e => match e with EngineCall c => Some c | _ => None end) tr.

Definition log_lines (tr : list event) : list (string * option Z) :=
  omap (fun e => match e with LOG_MSG t a => Some (t, a) | _ => None end) tr.

(** ** The mixer channel, as far as the handler drives it *)

Module MixerChannel.
Record t : Type := make {
  name : string;
  rate : Z;
  enabled : bool;
  vol_callback : bool;
  (** every [AddSamples_s16 (len, data)] received, oldest first *)
  added : list (Z * list Z)
}.

Definition Enable (b : bool) (c : t) : t :=
  make (name c) (rate c) b (vol_callback c) (added c).

Definition RegisterVolCallBack (c : t) : t :=
  make (name c) (rate c) (enabled c) true (added c).

(** The channel takes [len] stereo frames, that is [2 * len] samples,
    from the front of [data]. *)
Definition AddSamples_s16 (len : Z) (data : list Z) (c : t) : t :=
  make (name c) (rate c) (enabled c) (vol_callback c)
       (added c ++ [(len, take (Z.to_nat (2 * len)) data)]).

Definition frames_added (c : t) : Z :=
  foldr Z.add 0 (fst <$> added c).
End MixerChannel.

(** ** Outcomes

    [Undefined] is C++ undefined behaviour (a null handle dereferenced, a
    read past the end of a buffer); [OutOfFuel] is a loop that was still
    running when the iteration budget ended. *)

Inductive outcome (A : Type) : Type :=
| Returns (a : A)
| Undefined
| OutOfFuel.

Arguments Returns {A} a.
Arguments Undefined {A}.
Arguments OutOfFuel {A}.

#[global] Instance outcome_ret : MRet outcome := @Returns.

#[global] Instance outcome_bind : MBind outcome := fun A B k m =>
  match m with
  | Returns a => k a
  | Undefined => Undefined
  | OutOfFuel => OutOfFuel
  end.

(** Dereferencing a possibly-null owning pointer. *)
Definition deref {A : Type} (p : option A) : outcome A :=
  match p with
  | Some a => Returns a
  | None => Undefined
  end.

(** ** The collaborators

    Everything [midi_fluidsynth.cpp] calls and does not define: the
    FluidSynth library, the soft limiter, the mixer, the home-directory
    resolver, and the frame bound declared in the handler's header. *)

Class World : Type := {
  (** state of a synthesizer object and of the soft limiter *)
  synth_t : Type;
  limiter_t : Type;
  (** what a settings object keeps when asked to store a value under a
      name: the value, a clamped or quantised one, or nothing at all when it
      refuses (the call then fails and the table is as before) *)
  settings_store : string -> setting -> option setting;
  (** [new_fluid_settings ()]: a fresh table, or null *)
  new_fluid_settings : option (gmap string setting);
  (** [new_fluid_synth (settings)]: a synthesizer, or null *)
  new_fluid_synth : gmap string setting -> option synth_t;
  fluid_synth_sfcount : synth_t -> Z;
  fluid_synth_sfload : synth_t -> string -> synth_t;
  (** the effect of one MIDI operation on the synthesizer *)
  synth_call : engine_call -> synth_t -> synth_t;
  (** the synthesizer produces its output one stereo frame after the other,
      under the settings it was created from *)
  synth_frame : option (gmap string setting) -> synth_t -> synth_t * AudioFrame.t;
  (** [SoftLimiter::Apply (in, out, len)], which scales by the handler's
      pre-scale volume; it returns the new contents of [out] *)
  limiter_apply :
    limiter_t -> AudioFrame.t -> list float -> list Z -> Z -> limiter_t * list Z;
  ResolveHomedir : string -> string;
  (** the level the mixer hands to a volume callback at the moment it is
      registered, if it calls it then *)
  mixer_level : option AudioFrame.t;
  (** [expected_max_frames], a [uint16_t] constant of the header *)
  expected_max_frames : Z
}.

(** ** The handler object *)

Record MidiHandlerFluidsynth `{World} : Type := Handler {
  settings : option (gmap string setting);
  synth : option synth_t;
  channel : option MixerChannel.t;
  is_open : bool;
  prescale_volume : AudioFrame.t;
  mixer_volume : AudioFrame.t;
  soft_limiter : limiter_t
}.

Section Model.
Context `{W : World}.

Definition set_settings (x : option (gmap string setting)) (h : MidiHandlerFluidsynth) :=
  Handler _ x (synth h) (channel h) (is_open h)
          (prescale_volume h) (mixer_volume h) (soft_limiter h).

Definition set_synth (x : option synth_t) (h : MidiHandlerFluidsynth) :=
  Handler _ (settings h) x (channel h) (is_open h)
          (prescale_volume h) (mixer_volume h) (soft_limiter h).

Definition set_channel (x : option MixerChannel.t) (h : MidiHandlerFluidsynth) :=
  Handler _ (settings h) (synth h) x (is_open h)
          (prescale_volume h) (mixer_volume h) (soft_limiter h).

Definition set_is_open (x : bool) (h : MidiHandlerFluidsynth) :=
  Handler _ (settings h) (synth h) (channel h) x
          (prescale_volume h) (mixer_volume h) (soft_limiter h).

Definition set_prescale_volume (x : AudioFrame.t) (h : MidiHandlerFluidsynth) :=
  Handler _ (settings h) (synth h) (channel h) (is_open h)
          x (mixer_volume h) (soft_limiter h).

Definition set_mixer_volume (x : AudioFrame.t) (h : MidiHandlerFluidsynth) :=
  Handler _ (settings h) (synth h) (channel h) (is_open h)
          (prescale_volume h) x (soft_limiter h).

Definition set_soft_limiter (x : limiter_t) (h : MidiHandlerFluidsynth) :=
  Handler _ (settings h) (synth h) (channel h) (is_open h)
          (prescale_volume h) (mixer_volume h) x.

(** *** The settings API

    A call on a table stores what the engine keeps for the value, or fails
    and leaves the table alone.  The handler ignores the return codes. *)

Definition settings_set (name : string) (val : setting)
           (s : gmap string setting) : gmap string setting :=
  match settings_store name val with
  | Some kept => <[name := kept]> s
  | None => s
  end.

Definition fluid_settings_setnum (s : gmap string setting)
           (name : string) (val : double) : gmap string setting :=
  settings_set name (SetNum val) s.

Definition fluid_settings_setint (s : gmap string setting)
           (name : string) (val : Z) : gmap string setting :=
  settings_set name (SetInt val) s.

Definition fluid_settings_setstr (s : gmap string setting)
           (name : string) (val : string) : gmap string setting :=
  settings_set name (SetStr val) s.

(** [fluid_settings_getnum (s, name, &out)] writes [out] only when it
    succeeds: [None] is a failed call, with [out] untouched. *)
Definition fluid_settings_getnum (s : gmap string setting)
           (name : string) : option double :=
  match s !! name with
  | Some (SetNum v) => Some v
  | _ => None
  end.

(** *** [SetMixerVolume]

    The three statements of the body, then their sequence.  On a null
    [settings] handle both library calls fail: nothing is stored and
    [gain] keeps the value it was initialised with. *)

Definition SetMixerVolume_gain (desired_volume : AudioFrame.t)
           (h : MidiHandlerFluidsynth) : MidiHandlerFluidsynth * double :=
  let gain := Float64.of_float (std_min (AudioFrame.left desired_volume)
                                        (AudioFrame.right desired_volume)) in
  let h := set_settings
             ((fun s => fluid_settings_setnum s "synth.gain" gain) <$> settings h) h in
  let gain := default gain
                (settings h ≫= fun s => fluid_settings_getnum s "synth.gain") in
  (h, gain).

Definition SetMixerVolume_prescale (desired_volume : AudioFrame.t) (gain : double)
           (h : MidiHandlerFluidsynth) : MidiHandlerFluidsynth :=
  let gain_f := Float32.of_double gain in
  set_prescale_volume
    (AudioFrame.make
       (Float32.mul (Float32.of_int INT16_MAX)
                    (Float32.div (AudioFrame.left desired_volume) gain_f))
       (Float32.mul (Float32.of_int INT16_MAX)
                    (Float32.div (AudioFrame.right desired_volume) gain_f)))
    h.

Definition SetMixerVolume_keep (desired_volume : AudioFrame.t)
           (h : MidiHandlerFluidsynth) : MidiHandlerFluidsynth :=
  set_mixer_volume desired_volume h.

Definition SetMixerVolume (desired_volume : AudioFrame.t)
           (h : MidiHandlerFluidsynth) : MidiHandlerFluidsynth :=
  let '(h, gain) := SetMixerVolume_gain desired_volume h in
  let h := SetMixerVolume_prescale desired_volume gain h in
  SetMixerVolume_keep desired_volume h.

(** The handler states between the statements of [SetMixerVolume], the
    first and the last included. *)
Definition SetMixerVolume_states (desired_volume : AudioFrame.t)
           (h : MidiHandlerFluidsynth) : list MidiHandlerFluidsynth :=
  let '(h1, gain) := SetMixerVolume_gain desired_volume h in
  let h2 := SetMixerVolume_prescale desired_volume gain h1 in
  [h; h1; h2; SetMixerVolume_keep desired_volume h2].

(** *** [Close] *)

Definition Close (h : MidiHandlerFluidsynth) : outcome MidiHandlerFluidsynth :=
  if negb (is_open h) then mret h
  else
    c ← deref (channel h);
    let h := set_channel (Some (MixerChannel.Enable false c)) h in
    let h := set_channel None h in
    let h := set_synth None h in
    let h := set_settings None h in
    mret (set_is_open false h).

(** *** [PlayMsg]

    [msg] is the buffer the pointer argument designates; reading a byte it
    does not hold is undefined.  The masks and case labels are the source's
    binary literals, written in hexadecimal. *)

Definition byte_at (msg : list byte) (i : nat) : outcome Z :=
  match msg !! i with
  | Some b => mret (Z.of_N (Byte.to_N b))
  | None => Undefined
  end.

(** The value of a [uint64_t] whose object representation is the given
    bytes, on a little-endian host. *)
Fixpoint le_combine (bs : list byte) : Z :=
  match bs with
  | [] => 0
  | b :: bs => Z.lor (Z.of_N (Byte.to_N b)) (Z.shiftl (le_combine bs) 8)
  end.

(** [memcpy (&tmp, msg, sizeof (tmp))] with [tmp] a [uint64_t]. *)
Definition memcpy_u64 (msg : list byte) : outcome Z :=
  if decide (8 <= length msg)%nat then mret (le_combine (take 8 msg))
  else Undefined.

(** One call on [synth.get ()]; a null synthesizer has no state to change. *)
Definition to_synth (c : engine_call) (h : MidiHandlerFluidsynth)
    : MidiHandlerFluidsynth * list event :=
  (set_synth (synth_call c <$> synth h) h, [EngineCall c]).

Definition PlayMsg (msg : list byte) (h : MidiHandlerFluidsynth)
    : outcome (MidiHandlerFluidsynth * list event) :=
  b0 ← byte_at msg 0;
  let chanID := Z.land b0 0x0F in
  match Z.land b0 0xF0 with
  | 0x80 =>
      b1 ← byte_at msg 1;
      mret (to_synth (fluid_synth_noteoff chanID b1) h)
  | 0x90 =>
      b1 ← byte_at msg 1; b2 ← byte_at msg 2;
      mret (to_synth (fluid_synth_noteon chanID b1 b2) h)
  | 0xA0 =>
      b1 ← byte_at msg 1; b2 ← byte_at msg 2;
      mret (to_synth (fluid_synth_key_pressure chanID b1 b2) h)
  | 0xB0 =>
      b1 ← byte_at msg 1; b2 ← byte_at msg 2;
      mret (to_synth (fluid_synth_cc chanID b1 b2) h)
  | 0xC0 =>
      b1 ← byte_at msg 1;
      mret (to_synth (fluid_synth_program_change chanID b1) h)
  | 0xD0 =>
      b1 ← byte_at msg 1;
      mret (to_synth (fluid_synth_channel_pressure chanID b1) h)
  | 0xE0 =>
      b1 ← byte_at msg 1; b2 ← byte_at msg 2;
      mret (to_synth (fluid_synth_pitch_bend chanID (b1 + Z.shiftl b2 7)) h)
  | _ =>
      tmp ← memcpy_u64 msg;
      mret (h, [LOG_MSG "MIDI: unknown MIDI command: %0lx" (Some tmp)])
  end.

(** *** [MixerCallBack]

    [fluid_synth_write_float (synth, len, lout, loff, lincr, rout, roff,
    rincr)] renders [len] frames and stores the left sample of frame [i] at
    [lout[loff + i * lincr]], the right one at [rout[roff + i * rincr]].
    The handler passes the same array for [lout] and [rout].  A store is a
    list update: one that falls outside of the array, where C++ is
    undefined, changes nothing here.  On a null synthesizer the call fails
    and stores nothing. *)

Fixpoint render (cfg : option (gmap string setting)) (s : synth_t) (n : nat)
    : synth_t * list AudioFrame.t :=
  match n with
  | O => (s, [])
  | S n =>
      let '(s, f) := synth_frame cfg s in
      let '(s, fs) := render cfg s n in
      (s, f :: fs)
  end.

Fixpoint store_strided (buf : list float) (off incr : nat) (xs : list float)
    : list float :=
  match xs with
  | [] => buf
  | x :: xs => store_strided (<[off := x]> buf) (off + incr) incr xs
  end.

Definition fluid_synth_write_float (cfg : option (gmap string setting))
             (sy : option synth_t) (len : Z) (out : list float)
             (loff lincr roff rincr : nat) : option synth_t * list float :=
  match sy with
  | None => (None, out)
  | Some s =>
      let '(s, fs) := render cfg s (Z.to_nat len) in
      let out := store_strided out loff lincr (AudioFrame.left <$> fs) in
      let out := store_strided out roff rincr (AudioFrame.right <$> fs) in
      (Some s, out)
  end.

(** The locals of the callback that live across iterations. *)
Record callback_frame : Type := CallbackFrame {
  frames : Z;
  accumulator : list float;
  scaled : list Z
}.

Definition uint16 (z : Z) : Z := z mod 65536.

(** The body of the [while] loop. *)
Definition MixerCallBack_body (h : MidiHandlerFluidsynth) (l : callback_frame)
    : outcome (MidiHandlerFluidsynth * callback_frame) :=
  let max_frames := expected_max_frames in
  let len := Z.min (frames l) max_frames in
  let '(sy, acc) :=
    fluid_synth_write_float (settings h) (synth h) len (accumulator l) 0 2 1 2 in
  let h := set_synth sy h in
  let '(lim, out) :=
    limiter_apply (soft_limiter h) (prescale_volume h) acc (scaled l) len in
  let h := set_soft_limiter lim h in
  c ← deref (channel h);
  let h := set_channel (Some (MixerChannel.AddSamples_s16 len out c)) h in
  mret (h, CallbackFrame (uint16 (frames l - len)) acc out).

(** [while (frames > 0) body], with a budget of loop tests. *)
Fixpoint MixerCallBack_loop (fuel : nat) (h : MidiHandlerFluidsynth)
           (l : callback_frame) : outcome (MidiHandlerFluidsynth * callback_frame) :=
  match fuel with
  | O => OutOfFuel
  | S fuel =>
      if 0 <? frames l then
        '(h, l) ← MixerCallBack_body h l;
        MixerCallBack_loop fuel h l
      else mret (h, l)
  end.

Definition max_samples : Z := uint16 (expected_max_frames * 2).

Definition MixerCallBack (fuel : nat) (frames : Z) (h : MidiHandlerFluidsynth)
    : outcome MidiHandlerFluidsynth :=
  let accumulator := replicate (Z.to_nat max_samples) (S754_zero false) in
  let scaled := replicate (Z.to_nat max_samples) 0 in
  '(h, _) ← MixerCallBack_loop fuel h (CallbackFrame frames accumulator scaled);
  mret h.

(** *** [Open] *)

(** The [fluidsynth] section of the configuration. *)
Record config : Type := Config {
  soundfont : string;
  fluid_rate : Z;
  synth_threads : Z
}.

Definition MIXER_AddChannel (rate : Z) (name : string) : MixerChannel.t :=
  MixerChannel.make name rate false false [].

(** [channel->RegisterVolCallBack (set_mixer_volume)]. *)
Definition RegisterVolCallBack (h : MidiHandlerFluidsynth)
    : outcome MidiHandlerFluidsynth :=
  c ← deref (channel h);
  let h := set_channel (Some (MixerChannel.RegisterVolCallBack c)) h in
  mret (from_option (fun level => SetMixerVolume level h) h mixer_level).

Definition Open (conf : config) (h : MidiHandlerFluidsynth)
    : outcome (bool * MidiHandlerFluidsynth * list event) :=
  h ← Close h;
  match new_fluid_settings with
  | None => mret (false, h, [LOG_MSG "MIDI: new_fluid_settings failed" None])
  | Some fluid_settings =>
      let sample_rate := fluid_rate conf in
      let fluid_settings :=
        fluid_settings_setnum fluid_settings "synth.sample-rate"
                              (Float64.of_int sample_rate) in
      let cpu_cores := synth_threads conf in
      let fluid_settings :=
        fluid_settings_setint fluid_settings "synth.cpu-cores" cpu_cores in
      let fluid_settings :=
        fluid_settings_setstr fluid_settings "audio.sample-format" "float" in
      let h := set_settings (Some fluid_settings) h in
      match new_fluid_synth fluid_settings with
      | None =>
          mret (false, h,
                [LOG_MSG "MIDI: Failed to create the FluidSynth synthesizer" None])
      | Some fluid_synth =>
          let h := set_synth (Some fluid_synth) h in
          let soundfont := ResolveHomedir (soundfont conf) in
          let fluid_synth :=
            if negb (String.eqb soundfont "") && (fluid_synth_sfcount fluid_synth =? 0)
            then fluid_synth_sfload fluid_synth soundfont
            else fluid_synth in
          let h := set_synth (Some fluid_synth) h in
          let loaded :=
            DEBUG_LOG_MSG "MIDI: FluidSynth loaded %d SoundFont files"
                    (Some (fluid_synth_sfcount fluid_synth)) in
          let mixer_channel := MIXER_AddChannel (sample_rate mod 2 ^ 32) "FSYNTH" in
          let h := set_channel (Some mixer_channel) h in
          h ← RegisterVolCallBack h;
          c ← deref (channel h);
          let h := set_channel (Some (MixerChannel.Enable true c)) h in
          let h := set_is_open true h in
          mret (true, h, [loaded])
      end
  end.

End Model.

Section Specification.
Context `{W : World}.

(** The settings object [Open] hands to [new_fluid_synth]. *)
Definition Open_settings (conf : config) (fresh : gmap string setting)
    : gmap string setting :=
  fluid_settings_setstr
    (fluid_settings_setint
       (fluid_settings_setnum fresh "synth.sample-rate" (Float64.of_int (fluid_rate conf)))
       "synth.cpu-cores" (synth_threads conf))
    "audio.sample-format" "float".

(** The gain [SetMixerVolume] divides by: what the engine reports once the
    desired gain has been pushed into it. *)
Definition effective_gain (desired_volume : AudioFrame.t)
             (h : MidiHandlerFluidsynth) : double :=
  snd (SetMixerVolume_gain desired_volume h).

(** A null owning pointer. *)
Definition is_null {A : Type} (p : option A) : bool :=
  match p with
  | None => true
  | Some _ => false
  end.

(** The states the handler is in between two calls of its interface: an open
    handler owns its three resources, a closed one has neither channel nor
    synthesizer. *)
Definition consistent (h : MidiHandlerFluidsynth) : bool :=
  if is_open h
  then negb (is_null (channel h)) && negb (is_null (synth h))
       && negb (is_null (settings h))
  else is_null (channel h) && is_null (synth h).

Definition channel_enabled (h : MidiHandlerFluidsynth) : bool :=
  from_option MixerChannel.enabled false (channel h).

(** The quotient of an IEEE division by a zero of sign [s]. *)
Definition over_zero (s : bool) (x : float) : float :=
  match x with
  | S754_nan | S754_zero _ => S754_nan
  | S754_infinity sx | S754_finite sx _ _ => S754_infinity (xorb sx s)
  end.

(** What a guard on the division of [SetMixerVolume] would give when the
    gain reads back as zero: a pre-scale volume that was left as it was, or
    one with two finite channels. *)
Definition zero_gain_guarded (v : AudioFrame.t) (h : MidiHandlerFluidsynth) : Prop :=
  IEEE.is_zero (Float32.of_double (effective_gain v h)) = true ->
  prescale_volume (SetMixerVolume v h) = prescale_volume h
  \/ (IEEE.is_finite (AudioFrame.left (prescale_volume (SetMixerVolume v h))) = true
      /\ IEEE.is_finite (AudioFrame.right (prescale_volume (SetMixerVolume v h))) = true).

(** The dispatch table of the MIDI channel-voice messages, by the high
    nibble of the status byte; [None] is an unknown message class. *)
Definition dispatch_table (status data1 data2 : Z) : option engine_call :=
  let chan := status mod 16 in
  match status / 16 with
  | 8 => Some (fluid_synth_noteoff chan data1)
  | 9 => Some (fluid_synth_noteon chan data1 data2)
  | 10 => Some (fluid_synth_key_pressure chan data1 data2)
  | 11 => Some (fluid_synth_cc chan data1 data2)
  | 12 => Some (fluid_synth_program_change chan data1)
  | 13 => Some (fluid_synth_channel_pressure chan data1)
  | 14 => Some (fluid_synth_pitch_bend chan (data1 + Z.shiftl data2 7))
  | _ => None
  end.

(** The recognised message classes: a high nibble from 0x8 to 0xE. *)
Definition recognized (status : Z) : bool :=
  (8 <=? status / 16) && (status / 16 <=? 14).

(** The channel an engine call is addressed to. *)
Definition call_channel (c : engine_call) : Z :=
  match c with
  | fluid_synth_noteoff chan _
  | fluid_synth_noteon chan _ _
  | fluid_synth_key_pressure chan _ _
  | fluid_synth_cc chan _ _
  | fluid_synth_program_change chan _
  | fluid_synth_channel_pressure chan _
  | fluid_synth_pitch_bend chan _ => chan
  end.

(** The log line of an unknown message: the first eight bytes of the
    buffer, as one number. *)
Definition unknown_log (tmp : Z) : event :=
  LOG_MSG "MIDI: unknown MIDI command: %0lx" (Some tmp).

Definition unknown_command (msg : list byte) : event :=
  unknown_log (le_combine (take 8 msg)).

(** How many data bytes the dispatcher reads after a status byte. *)
Definition data_bytes (status : Z) : nat :=
  match (status / 16)%Z with
  | 9%Z | 10%Z | 11%Z | 14%Z => 2%nat
  | 8%Z | 12%Z | 13%Z => 1%nat
  | _ => 0%nat
  end.

Definition byte_val (b : byte) : Z := Z.of_N (Byte.to_N b).

(** Byte [i] of a buffer, zero where the buffer has none. *)
Definition byte_or_zero (msg : list byte) (i : nat) : Z :=
  from_option byte_val 0 (msg !! i).

(** The dispatcher as the table describes it: read the status byte; for a
    recognised class read the data bytes of the class and make the call of
    the table; otherwise copy eight bytes and log them. *)
Definition dispatch (msg : list byte) (h : MidiHandlerFluidsynth)
    : outcome (MidiHandlerFluidsynth * list event) :=
  status ← byte_at msg 0;
  if recognized status then
    data1 ← byte_at msg 1;
    data2 ← (if Nat.eqb (data_bytes status) 2 then byte_at msg 2 else mret 0);
    from_option (fun c => mret (to_synth c h)) Undefined
                (dispatch_table status data1 data2)
  else
    tmp ← memcpy_u64 msg;
    mret (h, [unknown_log tmp]).

(** The sizes of the deliveries that serve a request of [n] frames: full
    chunks of [expected_max_frames], then what is left. *)
Definition chunks (n : Z) : list Z :=
  replicate (Z.to_nat (n / expected_max_frames)) expected_max_frames
    ++ (if n mod expected_max_frames =? 0 then [] else [n mod expected_max_frames]).

(** The loop body run [n] times in a row. *)
Fixpoint MixerCallBack_iterate (n : nat) (h : MidiHandlerFluidsynth)
           (l : callback_frame) : outcome (MidiHandlerFluidsynth * callback_frame) :=
  match n with
  | O => mret (h, l)
  | S n => '(h, l) ← MixerCallBack_body h l; MixerCallBack_iterate n h l
  end.

(** The synthesizer after it has rendered [n] more frames. *)
Definition advance (cfg : option (gmap string setting)) (n : Z) (s : synth_t)
    : synth_t :=
  fst (render cfg s (Z.to_nat n)).

End Specification.

(** ** A reference world

    A small, fully computable instance of the collaborators, used to run the
    model on concrete inputs.  Its settings object keeps a gain between 0
    and 10 and refuses any other; its synthesizer remembers the calls it got
    and counts the frames it rendered. *)

Module Reference.

Definition d64 (num den : Z) : double :=
  SFdiv Float64.prec Float64.emax (Float64.of_int num) (Float64.of_int den).

Definition f32 (num den : Z) : float :=
  SFdiv Float32.prec Float32.emax (Float32.of_int num) (Float32.of_int den).

Definition store (name : string) (v : setting) : option setting :=
  match v with
  | SetNum x =>
      if String.eqb name "synth.gain"
      then if SFleb (d64 0 1) x && SFleb x (d64 10 1) then Some v else None
      else Some v
  | _ => Some v
  end.

Definition defaults : gmap string setting :=
  {[ "synth.gain" := SetNum (d64 1 5);
     "synth.sample-rate" := SetNum (d64 44100 1);
     "synth.cpu-cores" := SetInt 1 ]}.

Record synth_state : Type := SynthState {
  calls : list engine_call;
  position : Z;
  fonts : list string
}.

(** Frame [n] of the output is [(n, - n)]. *)
Definition frame (cfg : option (gmap string setting)) (s : synth_state)
    : synth_state * AudioFrame.t :=
  (SynthState (calls s) (position s + 1) (fonts s),
   AudioFrame.make (f32 (position s) 1) (f32 (- position s) 1)).

(** Truncation of a float towards zero. *)
Definition trunc (x : float) : Z :=
  match x with
  | S754_finite s m e =>
      let a := if 0 <=? e then Z.pos m * 2 ^ e else Z.pos m / 2 ^ (- e) in
      if s then - a else a
  | _ => 0
  end.

Definition clip (z : Z) : Z := Z.max (-32768) (Z.min 32767 z).

(** The limiter converts the first [2 * len] samples and counts them. *)
Definition limit (n : Z) (prescale : AudioFrame.t) (inp : list float)
             (out : list Z) (len : Z) : Z * list Z :=
  (n + len,
   ((fun x => clip (trunc x)) <$> take (Z.to_nat (2 * len)) inp)
     ++ drop (Z.to_nat (2 * len)) out).

#[local] Instance world : World := {|
  synth_t := synth_state;
  limiter_t := Z;
  settings_store := store;
  new_fluid_settings := Some defaults;
  new_fluid_synth := fun _ => Some (SynthState [] 0 []);
  fluid_synth_sfcount := fun s => Z.of_nat (length (fonts s));
  fluid_synth_sfload := fun s f => SynthState (calls s) (position s) (f :: fonts s);
  synth_call := fun c s => SynthState (c :: calls s) (position s) (fonts s);
  synth_frame := frame;
  limiter_apply := limit;
  ResolveHomedir := fun p => p;
  mixer_level := Some (AudioFrame.make (f32 1 1) (f32 1 1));
  expected_max_frames := 48
|}.

(** The same world with a FluidSynth library that cannot create a
    synthesizer. *)
#[local] Instance world_without_synth : World := {|
  synth_t := synth_state;
  limiter_t := Z;
  settings_store := store;
  new_fluid_settings := Some defaults;
  new_fluid_synth := fun _ => None;
  fluid_synth_sfcount := fun s => Z.of_nat (length (fonts s));
  fluid_synth_sfload := fun s f => SynthState (calls s) (position s) (f :: fonts s);
  synth_call := fun c s => SynthState (c :: calls s) (position s) (fonts s);
  synth_frame := frame;
  limiter_apply := limit;
  ResolveHomedir := fun p => p;
  mixer_level := None;
  expected_max_frames := 48
|}.

(** A handler as constructed: every handle null, closed. *)
Definition fresh `{W : World} (lim : limiter_t) : MidiHandlerFluidsynth :=
  Handler _ None None None false
          (AudioFrame.make (S754_zero false) (S754_zero false))
          (AudioFrame.make (S754_zero false) (S754_zero false)) lim.

Definition conf : config := Config "" 44100 1.

(** Left channel muted, right channel at unity. *)
Definition left_muted : AudioFrame.t := AudioFrame.make (f32 0 1) (f32 1 1).

(** Left channel at one half, right channel at unity. *)
Definition left_halved : AudioFrame.t := AudioFrame.make (f32 1 2) (f32 1 1).

(** The reference handler after a successful [Open]. *)
Definition opened : MidiHandlerFluidsynth (H := world) :=
  match Open conf (fresh (W := world) 0) with
  | Returns (_, h, _) => h
  | _ => fresh (W := world) 0
  end.

End Reference.

(** ** What the sink is owed

    The deliveries of a request, written from the frames the synthesizer
    renders rather than from the loop. *)

Section Deliveries.
Context `{W : World}.

(** The samples of a run of frames as the mixer takes them: interleaved,
    the left sample of a frame before its right one. *)
Fixpoint interleave (fs : list AudioFrame.t) : list float :=
  match fs with
  | [] => []
  | f :: fs => AudioFrame.left f :: AudioFrame.right f :: interleave fs
  end.

(** The frames the synthesizer renders for deliveries of the given sizes,
    one run per delivery, each from where the one before ended; a null
    synthesizer renders nothing. *)
Fixpoint pieces (cfg : option (gmap string setting)) (sy : option synth_t)
         (sizes : list Z) : list (Z * list AudioFrame.t) :=
  match sizes with
  | [] => []
  | k :: sizes =>
      match sy with
      | None => (k, []) :: pieces cfg None sizes
      | Some s =>
          let '(s, fs) := render cfg s (Z.to_nat k) in
          (k, fs) :: pieces cfg (Some s) sizes
      end
  end.

(** What the sink receives for such runs, and the limiter that is left:
    each run is laid interleaved over the front of the scratch array, the
    limiter converts the array into the integer array, and the first
    [2 * k] integers are delivered. *)
Fixpoint limit_chunks (prescale : AudioFrame.t) (lim : limiter_t)
         (acc : list float) (out : list Z) (runs : list (Z * list AudioFrame.t))
    : limiter_t * list (Z * list Z) :=
  match runs with
  | [] => (lim, [])
  | (k, fs) :: runs =>
      let acc := interleave fs ++ drop (2 * length fs) acc in
      let '(lim, out) := limiter_apply lim prescale acc out k in
      let '(lim', rest) := limit_chunks prescale lim acc out runs in
      (lim', (k, take (Z.to_nat (2 * k)) out) :: rest)
  end.

(** A message of an unknown class is dropped: the call returns with the
    handler as it was, no engine call and at least one log line. *)
Definition unknown_is_dropped (msg : list byte) (h : MidiHandlerFluidsynth) : Prop :=
  exists tr, PlayMsg msg h = Returns (h, tr)
             /\ engine_calls tr = [] /\ log_lines tr <> [].

End Deliveries.

(** ** The rest of the handler

    [PlaySysex], the configuration section registered at start-up, and the
    ways a handler goes from one state to the next. *)

(** [fluid_synth_sysex] is one more entry point of the library. *)
Class SysexWorld `{W : World} : Type := {
  (** the effect of [fluid_synth_sysex (synth, data, len, NULL, NULL, NULL,
      false)] on the synthesizer: no response buffer, no dry run *)
  synth_sysex : list byte -> Z -> synth_t -> synth_t
}.

(** [static_cast<int>] of a [size_t]: the value modulo 2^32, read as a
    two's complement number. *)
Definition to_int (z : Z) : Z := (z + 2 ^ 31) mod 2 ^ 32 - 2 ^ 31.

Definition INT_MAX : Z := 2 ^ 31 - 1.

(** The call [PlaySysex] makes: the buffer and the length it passes on. *)
Record sysex_call : Type := SysexCall {
  sysex_data : list byte;
  sysex_len : Z
}.

Section Sysex.
Context `{S : SysexWorld}.

(** [PlaySysex]. *)
Definition PlaySysex (sysex : list byte) (len : Z) (h : MidiHandlerFluidsynth)
    : MidiHandlerFluidsynth * sysex_call :=
  let data := sysex in
  let n := to_int len in
  (set_synth (synth_sysex data n <$> synth h) h, SysexCall data n).

(** One call of the handler's interface that returns. *)
Inductive step : MidiHandlerFluidsynth -> MidiHandlerFluidsynth -> Prop :=
| step_Open conf h b h' tr :
    Open conf h = Returns (b, h', tr) -> step h h'
| step_Close h h' :
    Close h = Returns h' -> step h h'
| step_SetMixerVolume v h :
    step h (SetMixerVolume v h)
| step_PlayMsg msg h h' tr :
    PlayMsg msg h = Returns (h', tr) -> step h h'
| step_PlaySysex sysex len h :
    step h (PlaySysex sysex len h).1
| step_MixerCallBack fuel n h h' :
    MixerCallBack fuel n h = Returns h' -> step h h'.

End Sysex.

(** *** The configuration section

    A [Section_prop] is the list of the properties added to it, oldest
    first.  [Add_string] and [Add_int] hand back the property they added,
    which [SetMinMax] and [Set_help] then change in place: here they change
    the property added last. *)

Inductive Changeable : Type := Always | WhenIdle | OnlyAtStart.

Inductive prop_value : Type :=
| Prop_string (default : string)
| Prop_int (default : Z) (min_max : option (Z * Z)).

Record Property : Type := MakeProperty {
  propname : string;
  when_changeable : Changeable;
  prop_default : prop_value;
  prop_help : string
}.

Definition Add_string (name : string) (when : Changeable) (value : string)
           (sec : list Property) : list Property :=
  sec ++ [MakeProperty name when (Prop_string value) ""].

Definition Add_int (name : string) (when : Changeable) (value : Z)
           (sec : list Property) : list Property :=
  sec ++ [MakeProperty name when (Prop_int value None) ""].

(** A change of the property added last. *)
Definition on_last (f : Property -> Property) (sec : list Property)
    : list Property :=
  match reverse sec with
  | [] => []
  | p :: ps => reverse (f p :: ps)
  end.

Definition SetMinMax (min max : Z) : list Property -> list Property :=
  on_last (fun p =>
    match prop_default p with
    | Prop_int d _ =>
        MakeProperty (propname p) (when_changeable p) (Prop_int d (Some (min, max)))
                     (prop_help p)
    | Prop_string _ => p
    end).

Definition Set_help (text : string) : list Property -> list Property :=
  on_last (fun p =>
    MakeProperty (propname p) (when_changeable p) (prop_default p) text).

(** The line feed of the help texts. *)
Definition newline : string := String (Ascii.ascii_of_nat 10) "".

(** [init_fluid_dosbox_settings]. *)
Definition init_fluid_dosbox_settings (secprop : list Property) : list Property :=
  let when_idle := WhenIdle in
  let secprop := Add_string "soundfont" when_idle "" secprop in
  let secprop :=
    Set_help "Path to a SoundFont file in .sf2 format to use with FluidSynth."
             secprop in
  let secprop := Add_int "fluid_rate" when_idle 44100 secprop in
  let secprop := SetMinMax 8000 96000 secprop in
  let secprop :=
    Set_help ("The sample rate of the audio generated by the synthesizer." ++ newline
              ++ "(min 8000, max 96000)")
             secprop in
  let secprop := Add_int "synth_threads" when_idle 1 secprop in
  let secprop := SetMinMax 1 256 secprop in
  Set_help ("If set to a value greater than 1, then additional synthesis" ++ newline
            ++ "threads will be created to take advantage of many CPU cores." ++ newline
            ++ "(min 1, max 256)")
           secprop.

(** The property of a name, the one added first if there are several. *)
Definition find_prop (name : string) (sec : list Property) : option Property :=
  List.find (fun p => String.eqb (propname p) name) sec.

(** Whether a section lets an integer property take a value: the property
    exists, is an integer, and the value is within its bounds if it has
    any. *)
Definition admits_int (sec : list Property) (name : string) (v : Z) : bool :=
  match prop_default <$> find_prop name sec with
  | Some (Prop_int _ (Some (lo, hi))) => (lo <=? v) && (v <=? hi)
  | Some (Prop_int _ None) => true
  | _ => false
  end.

Definition admits_string (sec : list Property) (name : string) : bool :=
  match prop_default <$> find_prop name sec with
  | Some (Prop_string _) => true
  | _ => false
  end.

(** The configurations [Open] can read from a section. *)
Definition admits (sec : list Property) (conf : config) : bool :=
  admits_string sec "soundfont"
  && admits_int sec "fluid_rate" (fluid_rate conf)
  && admits_int sec "synth_threads" (synth_threads conf).

(** The configuration of a section nobody has changed. *)
Definition default_config (sec : list Property) : option config :=
  match prop_default <$> find_prop "soundfont" sec,
        prop_default <$> find_prop "fluid_rate" sec,
        prop_default <$> find_prop "synth_threads" sec with
  | Some (Prop_string font), Some (Prop_int rate _), Some (Prop_int threads _) =>
      Some (Config font rate threads)
  | _, _, _ => None
  end.

(** *** Reading back the log of an unknown message *)

(** The [n] low bytes of a number, lowest first. *)
Fixpoint le_split (n : nat) (z : Z) : list Z :=
  match n with
  | O => []
  | S n => z mod 256 :: le_split n (z / 256)
  end.

(** The least buffer length for which [PlayMsg] reads within the buffer. *)
Definition bytes_read (status : Z) : nat :=
  if recognized status then (1 + data_bytes status)%nat else 8%nat.

(** *** The reference world, continued *)

Module ReferenceSysex.

(** The reference synthesizer does nothing with a system-exclusive
    message. *)
#[local] Instance sysex : SysexWorld (W := Reference.world) := {|
  synth_sysex := fun _ _ s => s
|}.

(** A volume the reference engine refuses as a gain: twenty on both
    channels. *)
Definition too_loud : AudioFrame.t :=
  AudioFrame.make (Reference.f32 20 1) (Reference.f32 20 1).

(** The eight-byte command buffer of the host, holding a note on. *)
Definition note_on : list byte := [x90; x3c; x64; x00; x00; x00; x00; x00].

(** The same buffer with leftovers of an earlier message after the three
    bytes of the note on. *)
Definition note_on_dirty : list byte := [x90; x3c; x64; xf7; x12; x00; x7f; x01].

End ReferenceSysex.

(** * Properties *)

(** ** Floating-point comparison *)

Lemma SFcompare_swap (a b : float) :
  SFcompare b a = CompOpp <$> SFcompare a b.
Proof.
  destruct a as [sa|sa| |sa ma ea], b as [sb|sb| |sb mb eb];
    try destruct sa; try destruct sb; try reflexivity.
  all: cbn; rewrite (Z.compare_antisym ea eb).
  all: destruct (ea ?= eb); cbn; try reflexivity.
  all: rewrite <- (Pos.compare_cont_antisym _ _ Eq); cbn.
  all: destruct (Pos.compare_cont Eq ma mb); reflexivity.
Qed.

Lemma ltb_asym (a b : float) :
  Float32.ltb a b = true -> Float32.ltb b a = false.
Proof.
  unfold Float32.ltb, SFltb. rewrite (SFcompare_swap a b).
  destruct (SFcompare a b) as [[]|]; cbn; congruence.
Qed.

Lemma ltb_irrefl (a : float) : Float32.ltb a a = false.
Proof.
  destruct (Float32.ltb a a) eqn:E; [|reflexivity].
  rewrite (ltb_asym _ _ E) in E. discriminate.
Qed.

(** [std::min] returns one of its arguments, and neither argument is
    strictly below what it returns. *)
Lemma std_min_is_min (a b : float) :
  (std_min a b = a \/ std_min a b = b)
  /\ Float32.ltb a (std_min a b) = false
  /\ Float32.ltb b (std_min a b) = false.
Proof.
  unfold std_min. destruct (Float32.ltb b a) eqn:E.
  - split; [now right|]. split; [now apply ltb_asym | apply ltb_irrefl].
  - split; [now left|]. split; [apply ltb_irrefl | exact E].
Qed.

Lemma int16_max_as_float :
  Float32.of_int INT16_MAX = S754_finite false 16776704 (-9).
Proof. reflexivity. Qed.

(** Multiplying by [INT16_MAX] what a division by zero gave leaves it as it
    is: a NaN or an infinity of the same sign. *)
Lemma scaled_over_zero (s : bool) (x : float) :
  Float32.mul (Float32.of_int INT16_MAX) (Float32.div x (S754_zero s))
  = over_zero s x.
Proof.
  rewrite int16_max_as_float. destruct x as [sx|sx| |sx mx ex]; reflexivity.
Qed.

(** ** [SetMixerVolume] *)

Section SetMixerVolumeFacts.
Context `{W : World}.
Implicit Types (h : MidiHandlerFluidsynth) (v : AudioFrame.t).

Lemma SetMixerVolume_unfold v h :
  SetMixerVolume v h =
  SetMixerVolume_keep v
    (SetMixerVolume_prescale v (effective_gain v h) (SetMixerVolume_gain v h).1).
Proof.
  unfold SetMixerVolume, effective_gain.
  destruct (SetMixerVolume_gain v h); reflexivity.
Qed.

Lemma settings_set_other name val k (s : gmap string setting) :
  k <> name -> settings_set name val s !! k = s !! k.
Proof.
  intros Hk. unfold settings_set.
  destruct (settings_store name val); [|reflexivity].
  now apply lookup_insert_ne.
Qed.

Lemma SetMixerVolume_settings v h :
  settings (SetMixerVolume v h) =
  (fun s => fluid_settings_setnum s "synth.gain"
              (Float64.of_float (std_min (AudioFrame.left v) (AudioFrame.right v))))
    <$> settings h.
Proof. rewrite SetMixerVolume_unfold. reflexivity. Qed.

End SetMixerVolumeFacts.

(** C1.  For every desired volume, [SetMixerVolume] takes as gain the
    minimum of the two channels (one of them, with neither channel strictly
    below it), pushes it into the engine's [synth.gain], reads the effective
    gain back from the engine, and sets the pre-scale of each channel to
    [INT16_MAX * (desired / effective_gain)], computed in single precision. *)
Theorem SetMixerVolume_calibrates `{W : World} (v : AudioFrame.t)
        (h : MidiHandlerFluidsynth) :
  let l := AudioFrame.left v in
  let r := AudioFrame.right v in
  let gain := Float64.of_float (std_min l r) in
  let h' := SetMixerVolume v h in
  let effective :=
    default gain (settings h' ≫= fun s => fluid_settings_getnum s "synth.gain") in
  ((std_min l r = l \/ std_min l r = r)
   /\ Float32.ltb l (std_min l r) = false
   /\ Float32.ltb r (std_min l r) = false)
  /\ settings h' = (fun s => fluid_settings_setnum s "synth.gain" gain) <$> settings h
  /\ prescale_volume h' =
     AudioFrame.make
       (Float32.mul (Float32.of_int INT16_MAX)
                    (Float32.div l (Float32.of_double effective)))
       (Float32.mul (Float32.of_int INT16_MAX)
                    (Float32.div r (Float32.of_double effective))).
Proof.
  intros l r gain h' effective.
  split; [apply std_min_is_min|].
  split; [apply SetMixerVolume_settings|].
  subst h'. rewrite SetMixerVolume_unfold. reflexivity.
Qed.

(** With a volume of one half on the left and one on the right, the
    reference engine keeps a gain of one half: the left channel is scaled by
    [INT16_MAX] and the right one by twice as much. *)
Example SetMixerVolume_left_halved :
  prescale_volume (SetMixerVolume Reference.left_halved Reference.opened)
  = AudioFrame.make (Float32.of_int 32767) (Float32.of_int 65534).
Proof. vm_compute. reflexivity. Qed.

(** When the engine keeps a value of its own for the requested gain, that
    value is the one read back. *)
Lemma effective_gain_kept `{W : World} (v : AudioFrame.t)
      (h : MidiHandlerFluidsynth) (s : gmap string setting) (kept : double) :
  settings h = Some s ->
  settings_store "synth.gain"
    (SetNum (Float64.of_float (std_min (AudioFrame.left v) (AudioFrame.right v))))
  = Some (SetNum kept) ->
  effective_gain v h = kept.
Proof.
  intros Hs Hk. unfold effective_gain, SetMixerVolume_gain. cbn.
  rewrite Hs. cbn. unfold fluid_settings_getnum, fluid_settings_setnum, settings_set.
  rewrite Hk, lookup_insert_eq. reflexivity.
Qed.

(** C3, as the code has it.  When the gain reads back as a zero, the
    division is carried out all the same: the pre-scale of a channel is a
    NaN where the desired volume is zero or NaN, and an infinity otherwise;
    the desired volume is still retained. *)
Theorem SetMixerVolume_zero_gain `{W : World} (v : AudioFrame.t)
        (h : MidiHandlerFluidsynth) (s : bool) :
  Float32.of_double (effective_gain v h) = S754_zero s ->
  prescale_volume (SetMixerVolume v h)
  = AudioFrame.make (over_zero s (AudioFrame.left v))
                    (over_zero s (AudioFrame.right v))
  /\ mixer_volume (SetMixerVolume v h) = v.
Proof.
  intros Hz. rewrite SetMixerVolume_unfold. split; [|reflexivity].
  unfold SetMixerVolume_keep, SetMixerVolume_prescale,
    set_mixer_volume, set_prescale_volume.
  cbn [prescale_volume]. rewrite Hz, !scaled_over_zero. reflexivity.
Qed.

Lemma SetMixerVolume_zero_gain_witness :
  Float32.of_double (effective_gain Reference.left_muted Reference.opened)
  = S754_zero false
  /\ prescale_volume (SetMixerVolume Reference.left_muted Reference.opened)
     = AudioFrame.make S754_nan (S754_infinity false).
Proof.
  split; [vm_compute; reflexivity|].
  apply (SetMixerVolume_zero_gain Reference.left_muted Reference.opened false).
  vm_compute; reflexivity.
Defined.

(** C3, as the claim has it, fails: with the left channel muted the
    reference engine reports a gain of zero, and the pre-scale volume is
    overwritten with a NaN and an infinity. *)
Lemma zero_gain_division_unguarded :
  ~ zero_gain_guarded Reference.left_muted Reference.opened.
Proof.
  unfold zero_gain_guarded. intros Hg.
  destruct Hg as [Hsame|[Hfin _]].
  - vm_compute; reflexivity.
  - vm_compute in Hsame. discriminate Hsame.
  - vm_compute in Hfin. discriminate Hfin.
Qed.

(** C6.  The volume read from the handler after [SetMixerVolume] is the pair
    it was called with. *)
Theorem SetMixerVolume_retains_volume `{W : World} (v : AudioFrame.t)
        (h : MidiHandlerFluidsynth) :
  mixer_volume (SetMixerVolume v h) = v
  /\ AudioFrame.left (mixer_volume (SetMixerVolume v h)) = AudioFrame.left v
  /\ AudioFrame.right (mixer_volume (SetMixerVolume v h)) = AudioFrame.right v.
Proof. rewrite SetMixerVolume_unfold. repeat split. Qed.

(** C10.  [SetMixerVolume] leaves the open flag, the synthesizer, the mixer
    channel and the limiter as they were; the settings handle designates the
    same object, changed at most under [synth.gain]; and in every state
    between its statements the pre-scale pair is the old pair or the new
    one. *)
Theorem SetMixerVolume_frame `{W : World} (v : AudioFrame.t)
        (h : MidiHandlerFluidsynth) :
  let h' := SetMixerVolume v h in
  (is_open h' = is_open h /\ synth h' = synth h /\ channel h' = channel h
   /\ soft_limiter h' = soft_limiter h)
  /\ (is_null (settings h') = is_null (settings h)
      /\ forall k : string, k <> "synth.gain" ->
           (settings h' ≫= fun s => s !! k) = (settings h ≫= fun s => s !! k))
  /\ (last (SetMixerVolume_states v h) = Some h'
      /\ Forall (fun st => prescale_volume st = prescale_volume h
                           \/ prescale_volume st = prescale_volume h')
                (SetMixerVolume_states v h)).
Proof.
  intros h'. subst h'. split; [|split].
  - rewrite SetMixerVolume_unfold. repeat split.
  - rewrite SetMixerVolume_settings. split.
    + destruct (settings h); reflexivity.
    + intros k Hk. destruct (settings h) as [s|]; [|reflexivity].
      cbn. now apply settings_set_other.
  - rewrite SetMixerVolume_unfold.
    unfold SetMixerVolume_states, effective_gain.
    destruct (SetMixerVolume_gain v h) as [h1 gain] eqn:E. cbn [fst snd].
    assert (prescale_volume h1 = prescale_volume h) as H1.
    { unfold SetMixerVolume_gain in E. injection E as <- _. reflexivity. }
    split; [reflexivity|].
    repeat apply Forall_cons_2; [now left | now left | now right | now right |].
    apply Forall_nil_2.
Qed.

Lemma SetMixerVolume_frame_witness :
  (settings (SetMixerVolume Reference.left_halved Reference.opened)
     ≫= fun s => s !! "synth.sample-rate")
  = (settings Reference.opened ≫= fun s => s !! "synth.sample-rate").
Proof.
  apply (SetMixerVolume_frame Reference.left_halved Reference.opened).
  discriminate.
Defined.

(** ** [Close] and [Open] *)

Section LifeCycle.
Context `{W : World}.
Implicit Types (h : MidiHandlerFluidsynth).

Lemma Close_closed h : is_open h = false -> Close h = Returns h.
Proof. intros Hc. unfold Close. rewrite Hc. reflexivity. Qed.

Lemma Close_result h h' :
  Close h = Returns h' ->
  is_open h' = false
  /\ (is_open h = true -> channel h' = None /\ synth h' = None /\ settings h' = None)
  /\ (is_open h = false -> h' = h).
Proof.
  unfold Close. destruct (is_open h) eqn:Ho; cbn.
  - destruct (channel h) as [c|]; cbn; [|discriminate].
    intros [= <-]. cbn. repeat split; congruence.
  - intros [= <-]. repeat split; congruence.
Qed.

Lemma Close_consistent h :
  consistent h = true ->
  exists h', Close h = Returns h'
             /\ is_open h' = false /\ channel h' = None /\ synth h' = None.
Proof.
  unfold consistent, Close. destruct (is_open h) eqn:Ho; cbn.
  - destruct (channel h) as [c|]; cbn; [|discriminate].
    intros _. eexists. split; [reflexivity|]. cbn. auto.
  - destruct (channel h) eqn:Hch, (synth h) eqn:Hsy; cbn; try discriminate.
    intros _. exists h. auto.
Qed.

Lemma consistent_closed h :
  is_open h = false -> channel h = None -> synth h = None -> consistent h = true.
Proof. unfold consistent. intros -> -> ->. reflexivity. Qed.

Lemma SetMixerVolume_consistent v h :
  consistent (SetMixerVolume v h) = consistent h.
Proof.
  rewrite SetMixerVolume_unfold. unfold consistent. cbn.
  destruct (settings h); reflexivity.
Qed.

End LifeCycle.

(** C8.  [Close] on a closed handler returns with the handler as it was;
    on any handler, closing twice is closing once; and from a consistent
    state [Close] returns, with the handler closed. *)
Theorem Close_idempotent `{W : World} (h : MidiHandlerFluidsynth) :
  (is_open h = false -> Close h = Returns h)
  /\ (Close h ≫= Close) = Close h
  /\ (consistent h = true ->
      exists h', Close h = Returns h' /\ Close h' = Returns h'
                 /\ is_open h' = false /\ consistent h' = true).
Proof.
  split; [apply Close_closed|]. split.
  - destruct (Close h) as [h'| |] eqn:E; cbn; try reflexivity.
    apply Close_closed. now apply Close_result in E.
  - intros Hc. destruct (Close_consistent h Hc) as (h' & E & Ho & Hch & Hsy).
    exists h'. split; [exact E|]. split; [now apply Close_closed|].
    split; [exact Ho|]. now apply consistent_closed.
Qed.

Lemma Close_idempotent_witness :
  Close (Reference.fresh (W := Reference.world) 0)
  = Returns (Reference.fresh (W := Reference.world) 0)
  /\ exists h', Close Reference.opened = Returns h' /\ Close h' = Returns h'
                /\ is_open h' = false /\ consistent h' = true.
Proof.
  split.
  - apply (proj1 (Close_idempotent (Reference.fresh (W := Reference.world) 0))).
    reflexivity.
  - apply (proj2 (proj2 (Close_idempotent Reference.opened))).
    vm_compute; reflexivity.
Defined.

(** An open handler with a null channel is a state [Close] cannot leave:
    it dereferences the channel. *)
Example Close_inconsistent :
  Close (set_is_open true (Reference.fresh (W := Reference.world) 0)) = Undefined.
Proof. reflexivity. Qed.

(** C7.  When the settings object or the synthesizer cannot be created,
    [Open] returns false with one log line, and the handler is closed: the
    open flag is off, there is no mixer channel (so none enabled) and no
    synthesizer. *)
Theorem Open_failure `{W : World} (conf : config) (h : MidiHandlerFluidsynth) :
  consistent h = true ->
  (new_fluid_settings = None
   \/ exists fresh, new_fluid_settings = Some fresh
                    /\ new_fluid_synth (Open_settings conf fresh) = None) ->
  exists h' text,
    Open conf h = Returns (false, h', [LOG_MSG text None])
    /\ is_open h' = false /\ channel h' = None /\ channel_enabled h' = false
    /\ synth h' = None /\ consistent h' = true.
Proof.
  intros Hc Hfail.
  destruct (Close_consistent h Hc) as (h1 & E & Ho & Hch & Hsy).
  unfold Open. rewrite E. cbn.
  destruct Hfail as [Hs|(fs & Hs & Hy)]; rewrite Hs.
  - exists h1. eexists. split; [reflexivity|].
    unfold channel_enabled. rewrite Hch. repeat split; auto.
    now apply consistent_closed.
  - unfold Open_settings in Hy. rewrite Hy.
    eexists. eexists. split; [reflexivity|].
    unfold channel_enabled. cbn. rewrite Hch. repeat split; auto.
    apply consistent_closed; cbn; auto.
Qed.

Lemma Open_failure_witness :
  exists h' text,
    Open (W := Reference.world_without_synth) Reference.conf
         (Reference.fresh (W := Reference.world_without_synth) 0)
    = Returns (false, h', [LOG_MSG text None])
    /\ is_open h' = false /\ channel h' = None /\ channel_enabled h' = false
    /\ synth h' = None /\ consistent h' = true.
Proof.
  apply (Open_failure (W := Reference.world_without_synth)).
  - reflexivity.
  - right. exists Reference.defaults. split; reflexivity.
Defined.

(** When both objects can be created, [Open] returns true and the handler is
    open, with its channel enabled. *)
Lemma Open_success `{W : World} (conf : config) (h : MidiHandlerFluidsynth)
      (fresh : gmap string setting) (sy : synth_t) :
  consistent h = true ->
  new_fluid_settings = Some fresh ->
  new_fluid_synth (Open_settings conf fresh) = Some sy ->
  exists h' tr,
    Open conf h = Returns (true, h', tr)
    /\ is_open h' = true /\ channel_enabled h' = true /\ consistent h' = true.
Proof.
  intros Hc Hs Hy.
  destruct (Close_consistent h Hc) as (h1 & E & Ho & Hch & Hsy).
  unfold Open. rewrite E. cbn. rewrite Hs.
  unfold Open_settings in Hy. rewrite Hy.
  unfold RegisterVolCallBack. cbn.
  destruct mixer_level as [level|]; cbn.
  - eexists. eexists. split; [reflexivity|]. cbn. auto.
  - eexists. eexists. split; [reflexivity|]. cbn. auto.
Qed.

(** The reference handler is what [Open] makes of a fresh one. *)
Example Open_reference :
  Open Reference.conf (Reference.fresh (W := Reference.world) 0)
  = Returns (true, Reference.opened,
             [DEBUG_LOG_MSG "MIDI: FluidSynth loaded %d SoundFont files" (Some 0)])
  /\ consistent Reference.opened = true
  /\ channel_enabled Reference.opened = true.
Proof. repeat split; reflexivity. Qed.

(** ** [PlayMsg] *)

Section Dispatch.
Context `{W : World}.
Implicit Types (h : MidiHandlerFluidsynth) (msg : list byte).

(** The [switch] of [PlayMsg] is the dispatch table: one case per value of
    the status byte. *)
Lemma PlayMsg_dispatch msg h : PlayMsg msg h = dispatch msg h.
Proof.
  unfold PlayMsg, dispatch.
  destruct msg as [|status rest]; [reflexivity|].
  destruct status; reflexivity.
Qed.

Lemma byte_val_range (b : byte) : 0 <= byte_val b < 256.
Proof.
  unfold byte_val. pose proof (Byte.to_N_bounded b) as Hb. lia.
Qed.

Lemma low_nibble (b : byte) : Z.land (byte_val b) 0x0F = byte_val b mod 16.
Proof.
  pose proof (byte_val_range b).
  change 0x0F with (Z.ones 4). now rewrite Z.land_ones by lia.
Qed.

Lemma dispatch_table_recognized status d1 d2 :
  is_Some (dispatch_table status d1 d2) <-> recognized status = true.
Proof.
  unfold dispatch_table, recognized.
  destruct (status / 16) as [|q|q]; cbn.
  - split; [intros [? [=]]|discriminate].
  - do 4 (try destruct q as [q|q|]); cbn;
      (split; [intros [? E]; try discriminate E; reflexivity
              | intros E; try discriminate E; eexists; reflexivity]).
  - split; [intros [? [=]]|discriminate].
Qed.

Lemma dispatch_table_channel status d1 d2 c :
  dispatch_table status d1 d2 = Some c -> call_channel c = status mod 16.
Proof.
  unfold dispatch_table. repeat case_match; intros [= <-]; reflexivity.
Qed.

(** A class with one data byte makes no use of the second. *)
Lemma dispatch_table_one_byte status d1 d2 d2' :
  Nat.eqb (data_bytes status) 2 = false ->
  dispatch_table status d1 d2 = dispatch_table status d1 d2'.
Proof.
  unfold dispatch_table, data_bytes.
  repeat case_match; try reflexivity; discriminate.
Qed.

Lemma recognized_data_bytes status :
  recognized status = true -> (1 <= data_bytes status)%nat.
Proof.
  unfold recognized, data_bytes. intros Hr.
  apply andb_true_iff in Hr as [Hl Hu].
  apply Z.leb_le in Hl, Hu.
  repeat case_match; lia.
Qed.

Lemma byte_at_present msg (i : nat) :
  (i < length msg)%nat -> byte_at msg i = Returns (byte_or_zero msg i).
Proof.
  intros Hi. unfold byte_at, byte_or_zero.
  destruct (lookup_lt_is_Some_2 msg i Hi) as [b ->]. reflexivity.
Qed.

Lemma byte_at_lookup msg (i : nat) (b : byte) :
  msg !! i = Some b -> byte_at msg i = Returns (byte_val b).
Proof. intros Hb. unfold byte_at. now rewrite Hb. Qed.

(** An unknown status byte takes the [default] label of the [switch]. *)
Lemma PlayMsg_default msg h status :
  msg !! 0%nat = Some status ->
  recognized (byte_val status) = false ->
  PlayMsg msg h = (tmp ← memcpy_u64 msg; mret (h, [unknown_command msg])).
Proof.
  intros H0 Hr. rewrite PlayMsg_dispatch. unfold dispatch.
  rewrite (byte_at_lookup msg 0 status H0). cbn. rewrite Hr.
  unfold memcpy_u64. destruct (decide (8 <= length msg)%nat); reflexivity.
Qed.

(** A recognised status byte takes the label of its class. *)
Lemma PlayMsg_class msg h status :
  msg !! 0%nat = Some status ->
  recognized (byte_val status) = true ->
  (1 + data_bytes (byte_val status) <= length msg)%nat ->
  exists c,
    dispatch_table (byte_val status) (byte_or_zero msg 1) (byte_or_zero msg 2)
    = Some c
    /\ call_channel c = Z.land (byte_val status) 0x0F
    /\ PlayMsg msg h = Returns (to_synth c h).
Proof.
  intros H0 Hr Hlen.
  pose proof (recognized_data_bytes _ Hr) as Hd.
  destruct (proj2 (dispatch_table_recognized (byte_val status)
                     (byte_or_zero msg 1) (byte_or_zero msg 2)) Hr) as [c Hc].
  exists c. split; [exact Hc|]. split.
  { rewrite low_nibble. now apply dispatch_table_channel in Hc. }
  rewrite PlayMsg_dispatch. unfold dispatch.
  rewrite (byte_at_lookup msg 0 status H0). cbn. rewrite Hr.
  rewrite (byte_at_present msg 1) by lia. cbn.
  destruct (Nat.eqb (data_bytes (byte_val status)) 2) eqn:E.
  - apply Nat.eqb_eq in E.
    rewrite (byte_at_present msg 2) by lia. cbn. now rewrite Hc.
  - cbn. rewrite (dispatch_table_one_byte _ _ 0 (byte_or_zero msg 2) E).
    now rewrite Hc.
Qed.

(** Whatever the message, the dispatcher touches nothing but the state of
    the synthesizer. *)
Lemma PlayMsg_keeps_handles msg h h' tr :
  PlayMsg msg h = Returns (h', tr) ->
  is_open h' = is_open h /\ channel h' = channel h /\ settings h' = settings h
  /\ is_null (synth h') = is_null (synth h)
  /\ prescale_volume h' = prescale_volume h /\ mixer_volume h' = mixer_volume h.
Proof.
  rewrite PlayMsg_dispatch. unfold dispatch.
  destruct (byte_at msg 0) as [status| |]; cbn; try discriminate.
  destruct (recognized status).
  - destruct (byte_at msg 1) as [d1| |]; cbn; try discriminate.
    destruct (if Nat.eqb _ 2 then _ else _) as [d2| |]; cbn; try discriminate.
    destruct (dispatch_table status d1 d2) as [c|]; cbn; try discriminate.
    intros [= <- <-]. cbn. destruct (synth h); repeat split.
  - destruct (memcpy_u64 msg) as [tmp| |]; cbn; try discriminate.
    intros [= <- <-]. repeat split.
Qed.

Lemma PlayMsg_consistent msg h h' tr :
  PlayMsg msg h = Returns (h', tr) -> consistent h' = consistent h.
Proof.
  intros Hp. apply PlayMsg_keeps_handles in Hp as (Ho & Hc & Hs & Hy & _).
  unfold consistent. now rewrite Ho, Hc, Hs, Hy.
Qed.

End Dispatch.

(** C4.  A message whose status byte has a high nibble from 0x8 to 0xE, in a
    buffer that holds the data bytes of its class, makes exactly one engine
    call and no log line: the call the dispatch table gives for the status
    and data bytes, on channel [status & 0x0F]. *)
Theorem PlayMsg_recognized `{W : World} (msg : list byte)
        (h : MidiHandlerFluidsynth) (status : byte) :
  msg !! 0%nat = Some status ->
  recognized (byte_val status) = true ->
  (1 + data_bytes (byte_val status) <= length msg)%nat ->
  exists c,
    dispatch_table (byte_val status) (byte_or_zero msg 1) (byte_or_zero msg 2)
    = Some c
    /\ call_channel c = Z.land (byte_val status) 0x0F
    /\ PlayMsg msg h = Returns (set_synth (synth_call c <$> synth h) h, [EngineCall c])
    /\ engine_calls [EngineCall c] = [c]
    /\ log_lines [EngineCall c] = [].
Proof.
  intros H0 Hr Hlen.
  destruct (PlayMsg_class msg h status H0 Hr Hlen) as (c & Hc & Hch & Hp).
  exists c. repeat split; assumption.
Qed.

(** The pitch bend bytes [(0xE0, 0x00, 0x40)] give a bend of 8192 on
    channel 0. *)
Lemma PlayMsg_recognized_witness :
  PlayMsg [xe0; x00; x40] Reference.opened
  = Returns (set_synth (synth_call (fluid_synth_pitch_bend 0 8192)
                          <$> synth Reference.opened) Reference.opened,
             [EngineCall (fluid_synth_pitch_bend 0 8192)]).
Proof.
  destruct (PlayMsg_recognized [xe0; x00; x40] Reference.opened xe0)
    as (c & Hc & _ & Hp & _).
  - reflexivity.
  - reflexivity.
  - vm_compute. lia.
  - injection Hc as <-. exact Hp.
Defined.

(** Note on: [(0x90, 60, 100)] is one note-on call, key 60, velocity 100. *)
Example PlayMsg_note_on :
  (r ← PlayMsg [x90; x3c; x64] Reference.opened; mret r.2)
  = Returns [EngineCall (fluid_synth_noteon 0 60 100)].
Proof. reflexivity. Qed.

(** A two-byte program change on channel 5. *)
Example PlayMsg_program_change :
  (r ← PlayMsg [xc5; x07] Reference.opened; mret r.2)
  = Returns [EngineCall (fluid_synth_program_change 5 7)].
Proof. reflexivity. Qed.

(** C5, as the code has it.  A message whose status byte is of no
    recognised class, in a buffer of at least the eight bytes the handler
    copies, makes no engine call and one log line with the raw bytes; the
    handler is as it was, so whatever is dispatched next behaves as if the
    unknown message had not come.  Whenever such a message returns at all,
    it has left the handler as it was and made no engine call.  In a buffer
    of fewer than eight bytes the copy reads past the end. *)
Theorem PlayMsg_unknown `{W : World} (msg : list byte)
        (h : MidiHandlerFluidsynth) (status : byte) :
  msg !! 0%nat = Some status ->
  recognized (byte_val status) = false ->
  ((8 <= length msg)%nat ->
   PlayMsg msg h = Returns (h, [unknown_command msg])
   /\ forall next, (r ← PlayMsg msg h; PlayMsg next r.1) = PlayMsg next h)
  /\ (forall h' tr, PlayMsg msg h = Returns (h', tr) ->
        h' = h /\ tr = [unknown_command msg])
  /\ engine_calls [unknown_command msg] = []
  /\ log_lines [unknown_command msg]
     = [("MIDI: unknown MIDI command: %0lx"%string, Some (le_combine (take 8 msg)))]
  /\ ((length msg < 8)%nat -> PlayMsg msg h = Undefined).
Proof.
  intros H0 Hr. rewrite (PlayMsg_default msg h status H0 Hr).
  unfold memcpy_u64. split; [|split; [|split; [reflexivity|split; [reflexivity|]]]].
  - intros Hlen. destruct (decide (8 <= length msg)%nat); [|contradiction].
    split; reflexivity.
  - intros h' tr. destruct (decide (8 <= length msg)%nat); cbn.
    + intros [= <- <-]. split; reflexivity.
    + discriminate.
  - intros Hlen. destruct (decide (8 <= length msg)%nat); [lia|reflexivity].
Qed.

(** A timing clock byte, 0xF8, in the host's eight-byte buffer, followed by
    a note on. *)
Lemma PlayMsg_unknown_witness :
  PlayMsg [xf8; x00; x00; x00; x00; x00; x00; x00] Reference.opened
  = Returns (Reference.opened,
             [unknown_command [xf8; x00; x00; x00; x00; x00; x00; x00]])
  /\ (r ← PlayMsg [xf8; x00; x00; x00; x00; x00; x00; x00] Reference.opened;
      PlayMsg [x90; x3c; x64] r.1)
     = PlayMsg [x90; x3c; x64] Reference.opened.
Proof.
  destruct (PlayMsg_unknown [xf8; x00; x00; x00; x00; x00; x00; x00]
                            Reference.opened xf8) as [Hret _].
  - reflexivity.
  - reflexivity.
  - destruct Hret as [Hp Hnext]; [cbn; lia|].
    split; [exact Hp | exact (Hnext [x90; x3c; x64])].
Defined.

(** C5, as the claim has it, fails: a timing clock message that is its own
    buffer, one byte long, is not dropped.  The copy of eight bytes reads
    past its end, and the call has no defined outcome. *)
Lemma unknown_message_overread :
  ~ unknown_is_dropped [xf8] Reference.opened.
Proof.
  intros (tr & Hp & _).
  assert (PlayMsg [xf8] Reference.opened = Undefined) as Hu by reflexivity.
  rewrite Hu in Hp. discriminate Hp.
Qed.

(** In a buffer shorter than eight bytes the copy of the unknown message
    reads past the end. *)
Example short_buffer_unknown :
  PlayMsg [xf8; x00; x00] Reference.opened = Undefined.
Proof. reflexivity. Qed.

(** ** The scratch buffer of [MixerCallBack] *)

Section ScratchBuffer.
Context `{W : World}.

(** Rendering is sequential: [a + b] frames are [a] frames, then [b] frames
    from where they ended. *)
Lemma render_add cfg (s : synth_t) (a b : nat) :
  render cfg s (a + b) =
  let '(s1, f1) := render cfg s a in
  let '(s2, f2) := render cfg s1 b in
  (s2, f1 ++ f2).
Proof.
  revert s. induction a as [|a IH]; intros s; cbn [render Nat.add].
  - destruct (render cfg s b); reflexivity.
  - destruct (synth_frame cfg s) as [s0 f].
    rewrite IH. destruct (render cfg s0 a) as [s1 f1].
    destruct (render cfg s1 b); reflexivity.
Qed.

Lemma advance_add cfg (s : synth_t) (a b : Z) :
  0 <= a -> 0 <= b -> advance cfg (a + b) s = advance cfg b (advance cfg a s).
Proof.
  intros Ha Hb. unfold advance. rewrite Z2Nat.inj_add by assumption.
  rewrite render_add. destruct (render cfg s (Z.to_nat a)) as [s1 f1].
  cbn [fst]. destruct (render cfg s1 (Z.to_nat b)); reflexivity.
Qed.

Lemma advance_zero cfg (s : synth_t) : advance cfg 0 s = s.
Proof. reflexivity. Qed.

Lemma render_length cfg (s : synth_t) (n : nat) :
  length (render cfg s n).2 = n.
Proof.
  revert s. induction n as [|n IH]; intros s; cbn [render]; [reflexivity|].
  destruct (synth_frame cfg s) as [s0 f]. specialize (IH s0).
  destruct (render cfg s0 n). cbn in *. now rewrite IH.
Qed.


Lemma store_strided_length (xs buf : list float) (off incr : nat) :
  length (store_strided buf off incr xs) = length buf.
Proof.
  revert buf off. induction xs as [|x xs IH]; intros buf off; cbn; [reflexivity|].
  rewrite IH. apply length_insert.
Qed.

(** A slot no store is aimed at keeps its contents. *)
Lemma store_strided_miss (xs buf : list float) (off incr j : nat) :
  (forall i, (i < length xs)%nat -> j <> (off + i * incr)%nat) ->
  store_strided buf off incr xs !! j = buf !! j.
Proof.
  revert buf off. induction xs as [|x xs IH]; intros buf off Hj; cbn; [reflexivity|].
  rewrite IH.
  - apply list_lookup_insert_ne. specialize (Hj 0%nat). cbn in Hj. lia.
  - intros i Hi. specialize (Hj (S i)). cbn in Hj. lia.
Qed.

(** Sample [i] lands in slot [off + i * incr], if the buffer has it. *)
Lemma store_strided_hit (xs buf : list float) (off incr i : nat) (x : float) :
  (0 < incr)%nat ->
  xs !! i = Some x ->
  (off + i * incr < length buf)%nat ->
  store_strided buf off incr xs !! (off + i * incr)%nat = Some x.
Proof.
  intros Hincr. revert buf off i.
  induction xs as [|y xs IH]; intros buf off i Hx Hlen; [discriminate|].
  cbn [store_strided]. destruct i as [|i]; cbn in Hx.
  - injection Hx as ->. rewrite store_strided_miss.
    + rewrite Nat.add_0_r. apply list_lookup_insert_eq. lia.
    + intros k _. nia.
  - replace (off + S i * incr)%nat with ((off + incr) + i * incr)%nat by lia.
    apply IH; [exact Hx|]. rewrite length_insert. lia.
Qed.

(** What the handler's call of [fluid_synth_write_float] leaves in an array
    that has room for [len] frames: the frames interleaved, left sample
    first, and the rest of the array as it was. *)
Lemma fluid_synth_write_float_interleaved cfg (s : synth_t) (len : Z)
      (out : list float) :
  (2 * Z.to_nat len <= length out)%nat ->
  let fs := (render cfg s (Z.to_nat len)).2 in
  let out' := (fluid_synth_write_float cfg (Some s) len out 0 2 1 2).2 in
  length out' = length out
  /\ (forall (i : nat) f, fs !! i = Some f ->
        out' !! (2 * i)%nat = Some (AudioFrame.left f)
        /\ out' !! (2 * i + 1)%nat = Some (AudioFrame.right f))
  /\ (forall j : nat, (2 * Z.to_nat len <= j)%nat -> out' !! j = out !! j).
Proof.
  intros Hroom fs out'. subst fs out'. unfold fluid_synth_write_float.
  pose proof (render_length cfg s (Z.to_nat len)) as Hlen.
  destruct (render cfg s (Z.to_nat len)) as [s1 fs]. cbn [snd] in *.
  split; [|split].
  - now rewrite !store_strided_length.
  - intros i f Hf.
    assert (i < length fs)%nat as Hi by (now apply lookup_lt_Some in Hf).
    split.
    + rewrite store_strided_miss by (intros k _; lia).
      replace (2 * i)%nat with (0 + i * 2)%nat by lia.
      apply store_strided_hit; [lia| |lia].
      rewrite list_lookup_fmap, Hf. reflexivity.
    + replace (2 * i + 1)%nat with (1 + i * 2)%nat by lia.
      apply store_strided_hit; [lia| |rewrite store_strided_length; lia].
      rewrite list_lookup_fmap, Hf. reflexivity.
  - intros j Hj.
    rewrite !store_strided_miss; [reflexivity| |];
      intros k Hk; rewrite length_fmap in Hk; lia.
Qed.

(** When twice the frame bound fits a [uint16_t], a chunk never needs more
    room than the scratch arrays have. *)
Lemma chunk_fits_scratch (n : Z) :
  0 <= expected_max_frames <= 32767 ->
  2 * Z.min n expected_max_frames <= max_samples.
Proof.
  intros Hm. unfold max_samples, uint16. rewrite Z.mod_small by lia. lia.
Qed.

End ScratchBuffer.

(** ** [MixerCallBack] *)

Section RenderLoop.
Context `{W : World}.
Implicit Types (h : MidiHandlerFluidsynth) (l : callback_frame).

Lemma sum_app (xs ys : list Z) :
  foldr Z.add 0 (xs ++ ys) = foldr Z.add 0 xs + foldr Z.add 0 ys.
Proof. induction xs as [|x xs IH]; cbn; [reflexivity|]. rewrite IH. lia. Qed.

Lemma sum_replicate (k : nat) (x : Z) :
  foldr Z.add 0 (replicate k x) = Z.of_nat k * x.
Proof. induction k as [|k IH]; cbn [replicate foldr]; [reflexivity|]. rewrite IH. lia. Qed.

(** The first delivery of a request is [min (n, max)] frames long, and the
    others are those of the frames that remain. *)
Lemma chunks_step (n : Z) :
  1 <= expected_max_frames -> 0 < n ->
  chunks n = Z.min n expected_max_frames :: chunks (n - Z.min n expected_max_frames).
Proof.
  intros Hm Hn. unfold chunks. set (m := expected_max_frames) in *.
  destruct (Z.lt_ge_cases n m) as [Hlt|Hge].
  - rewrite Z.min_l by lia. rewrite Z.sub_diag.
    rewrite (Z.div_small n m), (Z.mod_small n m) by lia.
    rewrite Z.div_0_l, Z.mod_0_l by lia.
    destruct (n =? 0) eqn:E; [lia|]. reflexivity.
  - rewrite Z.min_r by lia.
    assert (n / m = (n - m) / m + 1) as Hd.
    { replace n with ((n - m) + 1 * m) at 1 by lia. apply Z.div_add. lia. }
    assert (n mod m = (n - m) mod m) as Hr.
    { replace n with ((n - m) + 1 * m) at 1 by lia. apply Z.mod_add. lia. }
    assert (0 <= (n - m) / m) by (apply Z.div_pos; lia).
    rewrite Hd, Hr, Z2Nat.inj_add by lia. rewrite Nat.add_comm. reflexivity.
Qed.

Lemma chunks_zero : chunks 0 = [].
Proof.
  unfold chunks. destruct (Z.eq_dec expected_max_frames 0) as [->|Hm].
  - reflexivity.
  - rewrite Z.div_0_l, Z.mod_0_l by assumption. reflexivity.
Qed.

Lemma chunks_sum (n : Z) :
  1 <= expected_max_frames -> 0 <= n -> foldr Z.add 0 (chunks n) = n.
Proof.
  intros Hm Hn. unfold chunks. set (m := expected_max_frames) in *.
  rewrite sum_app, sum_replicate.
  assert (0 <= n / m) by (apply Z.div_pos; lia).
  rewrite Z2Nat.id by assumption.
  pose proof (Z.div_mod n m ltac:(lia)) as Hdm.
  destruct (n mod m =? 0) eqn:E; cbn; lia.
Qed.

Lemma chunks_bounded (n : Z) :
  1 <= expected_max_frames -> 0 <= n ->
  Forall (fun k => 1 <= k <= expected_max_frames) (chunks n).
Proof.
  intros Hm Hn. unfold chunks. set (m := expected_max_frames) in *.
  apply Forall_app. split.
  - apply Forall_replicate. lia.
  - pose proof (Z.mod_pos_bound n m ltac:(lia)).
    destruct (n mod m =? 0) eqn:E; [constructor|].
    repeat constructor; lia.
Qed.

(** There are no more deliveries than frames. *)
Lemma chunks_length (n : Z) :
  1 <= expected_max_frames -> 0 <= n -> Z.of_nat (length (chunks n)) <= n.
Proof.
  intros Hm Hn. pose proof (chunks_sum n Hm Hn) as Hs.
  pose proof (chunks_bounded n Hm Hn) as Hb.
  revert Hs Hb. generalize (chunks n). intros ks. revert n Hn.
  induction ks as [|k ks IH]; intros n Hn Hs Hb; cbn in *; [lia|].
  apply Forall_cons in Hb as [Hk Hb].
  specialize (IH (n - k)).
  assert (0 <= foldr Z.add 0 ks).
  { clear -Hb. induction Hb; cbn; lia. }
  specialize (IH ltac:(lia) ltac:(lia) Hb). lia.
Qed.

(** One iteration: [len = min (frames, max)] frames leave the synthesizer
    and reach the channel as one delivery; the count goes down by [len]. *)
Lemma MixerCallBack_body_spec h l (c : MixerChannel.t) :
  channel h = Some c ->
  let len := Z.min (frames l) expected_max_frames in
  exists h' l' data,
    MixerCallBack_body h l = Returns (h', l')
    /\ frames l' = uint16 (frames l - len)
    /\ channel h' = Some (MixerChannel.AddSamples_s16 len data c)
    /\ synth h' = advance (settings h) len <$> synth h
    /\ settings h' = settings h /\ is_open h' = is_open h
    /\ prescale_volume h' = prescale_volume h
    /\ mixer_volume h' = mixer_volume h.
Proof.
  intros Hc len. unfold MixerCallBack_body. fold len.
  unfold fluid_synth_write_float, advance.
  destruct (synth h) as [s|] eqn:Hs.
  - destruct (render (settings h) s (Z.to_nat len)) as [s1 fs] eqn:Hr.
    destruct (limiter_apply _ _ _ _ _) as [lim out] eqn:Hl.
    cbn. rewrite Hc. cbn.
    eexists _, _, out. repeat split. cbn. now rewrite Hr.
  - destruct (limiter_apply _ _ _ _ _) as [lim out] eqn:Hl.
    cbn. rewrite Hc. cbn.
    eexists _, _, out. repeat split.
Qed.

Lemma MixerCallBack_body_frames h l h1 l1 :
  MixerCallBack_body h l = Returns (h1, l1) ->
  frames l1 = uint16 (frames l - Z.min (frames l) expected_max_frames).
Proof.
  unfold MixerCallBack_body.
  destruct (fluid_synth_write_float _ _ _ _ _ _ _ _) as [sy acc].
  destruct (limiter_apply _ _ _ _ _) as [lim out]. cbn.
  destruct (channel h) as [c|]; cbn; [|discriminate].
  intros [= _ <-]. reflexivity.
Qed.

(** The body has no loop of its own. *)
Lemma MixerCallBack_body_ends h l : MixerCallBack_body h l <> OutOfFuel.
Proof.
  unfold MixerCallBack_body.
  destruct (fluid_synth_write_float _ _ _ _ _ _ _ _) as [sy acc].
  destruct (limiter_apply _ _ _ _ _) as [lim out]. cbn.
  destruct (channel h); discriminate.
Qed.

Lemma MixerCallBack_iterate_ends (n : nat) h l :
  MixerCallBack_iterate n h l <> OutOfFuel.
Proof.
  revert h l. induction n as [|n IH]; intros h l; cbn; [discriminate|].
  destruct (MixerCallBack_body h l) as [[h1 l1]| |] eqn:Hb; cbn.
  - apply IH.
  - discriminate.
  - now apply MixerCallBack_body_ends in Hb.
Qed.

(** The loop runs its body once per delivery of [chunks], whatever the
    handler: a budget above that number is never used up. *)
Lemma MixerCallBack_loop_unroll (fuel : nat) h l :
  1 <= expected_max_frames ->
  0 <= frames l < 65536 ->
  (length (chunks (frames l)) < fuel)%nat ->
  MixerCallBack_loop fuel h l
  = MixerCallBack_iterate (length (chunks (frames l))) h l.
Proof.
  intros Hm. revert h l.
  induction fuel as [|fuel IH]; intros h l Hf Hfuel; [lia|].
  cbn [MixerCallBack_loop].
  destruct (0 <? frames l) eqn:Hpos.
  - apply Z.ltb_lt in Hpos.
    rewrite (chunks_step (frames l) Hm Hpos) in *.
    cbn [length MixerCallBack_iterate] in *.
    destruct (MixerCallBack_body h l) as [[h1 l1]| |] eqn:Hb; cbn; try reflexivity.
    apply MixerCallBack_body_frames in Hb.
    unfold uint16 in Hb. rewrite Z.mod_small in Hb by lia.
    rewrite <- Hb in *. apply IH; lia.
  - apply Z.ltb_ge in Hpos. replace (frames l) with 0 by lia.
    rewrite chunks_zero. reflexivity.
Qed.

(** The loop, with a budget larger than the number of deliveries. *)
Lemma MixerCallBack_loop_spec (fuel : nat) h l (c : MixerChannel.t) :
  1 <= expected_max_frames ->
  0 <= frames l < 65536 ->
  channel h = Some c ->
  (length (chunks (frames l)) < fuel)%nat ->
  exists h' l' c',
    MixerCallBack_loop fuel h l = Returns (h', l')
    /\ frames l' = 0
    /\ channel h' = Some c'
    /\ (exists new, MixerChannel.added c' = MixerChannel.added c ++ new
                    /\ new.*1 = chunks (frames l))
    /\ MixerChannel.enabled c' = MixerChannel.enabled c
    /\ synth h' = advance (settings h) (frames l) <$> synth h
    /\ settings h' = settings h /\ is_open h' = is_open h
    /\ prescale_volume h' = prescale_volume h
    /\ mixer_volume h' = mixer_volume h.
Proof.
  intros Hm. revert h l c.
  induction fuel as [|fuel IH]; intros h l c Hf Hc Hfuel; [lia|].
  cbn [MixerCallBack_loop].
  destruct (0 <? frames l) eqn:Hpos.
  - apply Z.ltb_lt in Hpos.
    destruct (MixerCallBack_body_spec h l c Hc)
      as (h1 & l1 & data & Hb & Hl1 & Hc1 & Hs1 & Hset1 & Ho1 & Hp1 & Hv1).
    set (len := Z.min (frames l) expected_max_frames) in *.
    assert (1 <= len <= frames l) as Hlen by (subst len; lia).
    unfold uint16 in Hl1. rewrite Z.mod_small in Hl1 by lia.
    rewrite (chunks_step (frames l) Hm Hpos) in Hfuel. fold len in Hfuel.
    cbn [length] in Hfuel. rewrite <- Hl1 in Hfuel.
    destruct (IH h1 l1 _ ltac:(lia) Hc1 ltac:(lia))
      as (h' & l' & c' & Hloop & Hz & Hc' & (new & Hadd & Hnew) & Hen & Hs' & Hset'
          & Ho' & Hp' & Hv').
    exists h', l', c'. rewrite Hb. cbn. rewrite Hloop.
    split; [reflexivity|]. split; [exact Hz|]. split; [exact Hc'|].
    split; [|split; [exact Hen|]].
    + exists ((len, take (Z.to_nat (2 * len)) data) :: new). split.
      * rewrite Hadd. cbn. rewrite <- app_assoc. reflexivity.
      * rewrite (chunks_step (frames l) Hm Hpos). fold len.
        cbn. rewrite Hnew, Hl1. reflexivity.
    + split; [|repeat split; congruence].
      rewrite Hs', Hs1, Hset1, Hl1.
      destruct (synth h) as [s|]; cbn; [|reflexivity].
      f_equal. replace (frames l) with (len + (frames l - len)) at 2 by lia.
      rewrite advance_add by lia. reflexivity.
  - apply Z.ltb_ge in Hpos. assert (frames l = 0) as Hz by lia.
    exists h, l, c. rewrite Hz, chunks_zero.
    split; [reflexivity|]. split; [reflexivity|]. split; [exact Hc|].
    split; [exists []; split; [now rewrite app_nil_r|reflexivity]|].
    split; [reflexivity|].
    split; [|repeat split].
    destruct (synth h); reflexivity.
Qed.

(** With a null channel the first delivery dereferences it. *)
Lemma MixerCallBack_loop_null (fuel : nat) h l :
  channel h = None ->
  MixerCallBack_loop (S fuel) h l
  = if 0 <? frames l then Undefined else Returns (h, l).
Proof.
  intros Hc. cbn [MixerCallBack_loop].
  destruct (0 <? frames l); [|reflexivity].
  unfold MixerCallBack_body.
  destruct (fluid_synth_write_float _ _ _ _ _ _ _ _) as [sy acc].
  destruct (limiter_apply _ _ _ _ _) as [lim out].
  cbn. rewrite Hc. reflexivity.
Qed.

(** With a frame bound of zero the loop serves nothing and never ends. *)
Lemma MixerCallBack_loop_stuck (fuel : nat) h l (c : MixerChannel.t) :
  expected_max_frames = 0 ->
  0 < frames l < 65536 ->
  channel h = Some c ->
  MixerCallBack_loop fuel h l = OutOfFuel.
Proof.
  intros Hm. revert h l c.
  induction fuel as [|fuel IH]; intros h l c Hf Hc; [reflexivity|].
  cbn [MixerCallBack_loop].
  destruct (0 <? frames l) eqn:Hpos; [|apply Z.ltb_ge in Hpos; lia].
  destruct (MixerCallBack_body_spec h l c Hc)
    as (h1 & l1 & data & Hb & Hl1 & Hc1 & _).
  rewrite Hb. cbn. rewrite Hm in Hl1, Hc1.
  rewrite Z.min_r in Hl1, Hc1 by lia.
  unfold uint16 in Hl1. rewrite Z.sub_0_r, Z.mod_small in Hl1 by lia.
  eapply IH; [lia|exact Hc1].
Qed.

(** The callback changes the state of the synthesizer, of the limiter and
    of the channel, and no handle. *)
Lemma MixerCallBack_body_keeps h l h1 l1 :
  MixerCallBack_body h l = Returns (h1, l1) ->
  is_open h1 = is_open h /\ settings h1 = settings h
  /\ is_null (channel h1) = is_null (channel h)
  /\ is_null (synth h1) = is_null (synth h)
  /\ prescale_volume h1 = prescale_volume h /\ mixer_volume h1 = mixer_volume h.
Proof.
  unfold MixerCallBack_body, fluid_synth_write_float.
  destruct (synth h) as [s|] eqn:Hs.
  - destruct (render _ _ _) as [s1 fs].
    destruct (limiter_apply _ _ _ _ _) as [lim out]. cbn.
    destruct (channel h) as [c|]; cbn; [|discriminate].
    intros [= <- <-]. cbn. repeat split.
  - destruct (limiter_apply _ _ _ _ _) as [lim out]. cbn.
    destruct (channel h) as [c|]; cbn; [|discriminate].
    intros [= <- <-]. cbn. repeat split.
Qed.

Lemma MixerCallBack_consistent (fuel : nat) (F : Z) h h' :
  MixerCallBack fuel F h = Returns h' -> consistent h' = consistent h.
Proof.
  unfold MixerCallBack. generalize (CallbackFrame F
    (replicate (Z.to_nat max_samples) (S754_zero false))
    (replicate (Z.to_nat max_samples) 0)).
  intros l Hr.
  assert (exists l', MixerCallBack_loop fuel h l = Returns (h', l')) as [l' Hl].
  { destruct (MixerCallBack_loop fuel h l) as [[h2 l2]| |];
      try discriminate Hr. injection Hr as <-. now exists l2. }
  clear Hr. revert h l Hl.
  induction fuel as [|fuel IH]; intros h l Hl; [discriminate|].
  cbn [MixerCallBack_loop] in Hl. destruct (0 <? frames l).
  - destruct (MixerCallBack_body h l) as [[h1 l1]| |] eqn:Hb; try discriminate Hl.
    cbn in Hl. rewrite (IH _ _ Hl).
    apply MixerCallBack_body_keeps in Hb as (Ho & Hs & Hc & Hy & _).
    unfold consistent. now rewrite Ho, Hs, Hc, Hy.
  - injection Hl as <- _. reflexivity.
Qed.

Lemma frames_added_app (c c' : MixerChannel.t) (new : list (Z * list Z)) :
  MixerChannel.added c' = MixerChannel.added c ++ new ->
  MixerChannel.frames_added c' = MixerChannel.frames_added c + foldr Z.add 0 new.*1.
Proof.
  intros E. unfold MixerChannel.frames_added. rewrite E, fmap_app. apply sum_app.
Qed.

End RenderLoop.

(** ** The contents of the deliveries *)

Section DeliveredSamples.
Context `{W : World}.
Implicit Types (h : MidiHandlerFluidsynth) (l : callback_frame).

Lemma interleave_length (fs : list AudioFrame.t) :
  length (interleave fs) = (2 * length fs)%nat.
Proof. induction fs as [|f fs IH]; cbn; [reflexivity|]. rewrite IH. lia. Qed.

Lemma interleave_lookup (fs : list AudioFrame.t) (i : nat) (f : AudioFrame.t) :
  fs !! i = Some f ->
  interleave fs !! (2 * i)%nat = Some (AudioFrame.left f)
  /\ interleave fs !! (2 * i + 1)%nat = Some (AudioFrame.right f).
Proof.
  revert i. induction fs as [|g fs IH]; intros i Hf; [discriminate|].
  destruct i as [|i]; cbn in Hf.
  - injection Hf as ->. split; reflexivity.
  - replace (2 * S i)%nat with (S (S (2 * i))) by lia.
    replace (S (S (2 * i)) + 1)%nat with (S (S (2 * i + 1))) by lia.
    cbn. now apply IH.
Qed.

(** The two strided stores of the handler's call lay the frames
    interleaved over the front of an array that has room for them. *)
Lemma store_strided_interleave (fs : list AudioFrame.t) (buf : list float) :
  (2 * length fs <= length buf)%nat ->
  store_strided (store_strided buf 0 2 (AudioFrame.left <$> fs)) 1 2
                (AudioFrame.right <$> fs)
  = interleave fs ++ drop (2 * length fs) buf.
Proof.
  intros Hroom. apply list_eq. intros j.
  destruct (Nat.lt_ge_cases j (2 * length fs)) as [Hlt|Hge].
  - rewrite lookup_app_l by (rewrite interleave_length; lia).
    assert (exists i, (j = 2 * i \/ j = 2 * i + 1)%nat /\ (i < length fs)%nat)
      as (i & Hj & Hi).
    { exists (j / 2)%nat. pose proof (Nat.div_mod_eq j 2) as Hdm.
      pose proof (Nat.mod_upper_bound j 2). lia. }
    destruct (lookup_lt_is_Some_2 fs i Hi) as [f Hf].
    destruct (interleave_lookup fs i f Hf) as [Hl Hr].
    destruct Hj as [-> | ->].
    + rewrite Hl. rewrite store_strided_miss by (intros k _; lia).
      replace (2 * i)%nat with (0 + i * 2)%nat by lia.
      apply store_strided_hit; [lia| |lia].
      now rewrite list_lookup_fmap, Hf.
    + rewrite Hr. replace (2 * i + 1)%nat with (1 + i * 2)%nat by lia.
      apply store_strided_hit; [lia| |rewrite store_strided_length; lia].
      now rewrite list_lookup_fmap, Hf.
  - rewrite lookup_app_r by (rewrite interleave_length; lia).
    rewrite interleave_length, lookup_drop.
    replace (2 * length fs + (j - 2 * length fs))%nat with j by lia.
    rewrite !store_strided_miss; [reflexivity| |];
      intros k Hk; rewrite length_fmap in Hk; lia.
Qed.



Lemma pieces_sizes cfg (sy : option synth_t) (sizes : list Z) :
  (pieces cfg sy sizes).*1 = sizes.
Proof.
  revert sy. induction sizes as [|k sizes IH]; intros sy; [reflexivity|].
  cbn [pieces]. destruct sy as [s|].
  - destruct (render cfg s (Z.to_nat k)) as [s' fs]. cbn. now rewrite IH.
  - cbn. now rewrite IH.
Qed.

(** The runs of the deliveries, put end to end, are the frames the
    synthesizer renders in one go: each frame once, in the order it was
    rendered. *)
Lemma pieces_frames cfg (s : synth_t) (sizes : list Z) :
  Forall (fun k => 0 <= k) sizes ->
  concat (pieces cfg (Some s) sizes).*2
  = (render cfg s (Z.to_nat (foldr Z.add 0 sizes))).2.
Proof.
  intros Hpos. revert s.
  induction Hpos as [|k sizes Hk Hpos IH]; intros s; [reflexivity|].
  cbn [pieces foldr].
  assert (0 <= foldr Z.add 0 sizes) as Hsum.
  { clear -Hpos. induction Hpos; cbn; lia. }
  rewrite Z2Nat.inj_add, render_add by lia.
  destruct (render cfg s (Z.to_nat k)) as [s' fs]. cbn. rewrite IH.
  destruct (render cfg s' _); reflexivity.
Qed.

Lemma MixerCallBack_body_content h l (c : MixerChannel.t) :
  channel h = Some c ->
  let len := Z.min (frames l) expected_max_frames in
  let fs := match synth h with
            | Some s => (render (settings h) s (Z.to_nat len)).2
            | None => []
            end in
  (2 * length fs <= length (accumulator l))%nat ->
  let acc := interleave fs ++ drop (2 * length fs) (accumulator l) in
  let r := limiter_apply (soft_limiter h) (prescale_volume h) acc (scaled l) len in
  exists h',
    MixerCallBack_body h l
    = Returns (h', CallbackFrame (uint16 (frames l - len)) acc r.2)
    /\ channel h' = Some (MixerChannel.AddSamples_s16 len r.2 c)
    /\ soft_limiter h' = r.1
    /\ synth h' = advance (settings h) len <$> synth h
    /\ settings h' = settings h
    /\ prescale_volume h' = prescale_volume h.
Proof.
  intros Hc len fs Hroom acc r. subst r acc fs.
  unfold MixerCallBack_body, fluid_synth_write_float, advance. fold len.
  destruct (synth h) as [s|] eqn:Hs.
  - destruct (render (settings h) s (Z.to_nat len)) as [s1 fs] eqn:Hr.
    cbn [snd fst] in *. rewrite (store_strided_interleave fs _ Hroom).
    cbn [soft_limiter prescale_volume set_synth].
    destruct (limiter_apply _ _ _ _ _) as [lim out] eqn:Hl.
    cbn. rewrite Hc. cbn. eexists. repeat split. cbn. now rewrite Hr.
  - cbn [interleave length app drop Nat.mul].
    cbn [soft_limiter prescale_volume set_synth].
    destruct (limiter_apply _ _ _ _ _) as [lim out] eqn:Hl.
    cbn. rewrite Hc. cbn. eexists. repeat split.
Qed.

(** The loop delivers what the limiter makes of the runs of [pieces]. *)
Lemma MixerCallBack_loop_content (fuel : nat) h l (c : MixerChannel.t) :
  1 <= expected_max_frames <= 32767 ->
  0 <= frames l < 65536 ->
  length (accumulator l) = Z.to_nat max_samples ->
  channel h = Some c ->
  (length (chunks (frames l)) < fuel)%nat ->
  exists h' l' c',
    MixerCallBack_loop fuel h l = Returns (h', l')
    /\ channel h' = Some c'
    /\ (soft_limiter h', drop (length (MixerChannel.added c)) (MixerChannel.added c'))
       = limit_chunks (prescale_volume h) (soft_limiter h) (accumulator l) (scaled l)
           (pieces (settings h) (synth h) (chunks (frames l)))
    /\ take (length (MixerChannel.added c)) (MixerChannel.added c')
       = MixerChannel.added c.
Proof.
  intros Hm. revert h l c.
  induction fuel as [|fuel IH]; intros h l c Hf Hacc Hc Hfuel; [lia|].
  cbn [MixerCallBack_loop].
  destruct (0 <? frames l) eqn:Hpos.
  - apply Z.ltb_lt in Hpos.
    assert (1 <= expected_max_frames) as Hm1 by lia.
    rewrite (chunks_step (frames l) Hm1 Hpos) in *.
    set (len := Z.min (frames l) expected_max_frames) in *.
    assert (1 <= len <= frames l) as Hlen by (subst len; lia).
    assert (2 * Z.to_nat len <= length (accumulator l))%nat as Hroom.
    { assert (0 <= expected_max_frames <= 32767) as Hm0 by lia.
      pose proof (chunk_fits_scratch (frames l) Hm0) as Hfit. fold len in Hfit.
      rewrite Hacc. lia. }
    pose proof (MixerCallBack_body_content h l c Hc) as Hb.
    cbv zeta in Hb. fold len in Hb.
    cbn [pieces].
    destruct (synth h) as [s|] eqn:Hs.
    + pose proof (render_length (settings h) s (Z.to_nat len)) as Hrl.
      destruct (render (settings h) s (Z.to_nat len)) as [s1 fs] eqn:Hr.
      cbn [snd fst] in *. rewrite Hrl in Hb. specialize (Hb Hroom).
      destruct Hb as (h1 & Hb & Hc1 & Hlim1 & Hs1 & Hset1 & Hp1).
      cbn [limit_chunks]. rewrite Hrl.
      destruct (limiter_apply _ _ _ _ _) as [lim out] eqn:Hl. cbn [fst snd] in *.
      unfold uint16 in Hb. rewrite Z.mod_small in Hb by lia.
      rewrite Hb. cbn [mbind outcome_bind].
      edestruct (IH h1 (CallbackFrame (frames l - len)
                          (interleave fs ++ drop (2 * Z.to_nat len) (accumulator l))
                          out))
        as (h' & l' & c' & Hloop & Hc' & Hcontent & Hkeep);
        [cbn; lia | | exact Hc1 | cbn [length] in Hfuel; cbn; lia |].
      { cbn. rewrite length_app, interleave_length, length_drop. lia. }
      cbn [frames accumulator scaled] in Hcontent.
      assert (synth h1 = Some s1) as Hs1'
        by (rewrite Hs1; cbn; unfold advance; now rewrite Hr).
      rewrite Hset1, Hp1, Hlim1, Hs1' in Hcontent.
      destruct (limit_chunks _ _ _ _ _) as [lim' rest].
      cbn [MixerChannel.AddSamples_s16 MixerChannel.added] in Hcontent, Hkeep.
      rewrite length_app in Hcontent, Hkeep. cbn [length] in Hcontent, Hkeep.
      injection Hcontent as Hl' Hrest.
      exists h', l', c'. rewrite Hloop. split; [reflexivity|]. split; [exact Hc'|].
      assert (MixerChannel.added c'
              = (MixerChannel.added c ++ [(len, take (Z.to_nat (2 * len)) out)]) ++ rest)
        as Hadd.
      { rewrite <- (take_drop (length (MixerChannel.added c) + 1)
                               (MixerChannel.added c')).
        now rewrite Hkeep, Hrest. }
      rewrite Hadd, <- app_assoc. split.
      * rewrite drop_app_length. cbn. now rewrite Hl'.
      * now rewrite take_app_length.
    + cbn [length Nat.mul] in Hb. specialize (Hb ltac:(lia)).
      destruct Hb as (h1 & Hb & Hc1 & Hlim1 & Hs1 & Hset1 & Hp1).
      cbn [limit_chunks length Nat.mul Nat.add interleave app drop] in Hb |- *.
      change (drop 0 (accumulator l)) with (accumulator l) in *.
      destruct (limiter_apply _ _ _ _ _) as [lim out] eqn:Hl. cbn [fst snd] in *.
      unfold uint16 in Hb. rewrite Z.mod_small in Hb by lia.
      rewrite Hb. cbn [mbind outcome_bind].
      edestruct (IH h1 (CallbackFrame (frames l - len) (accumulator l) out))
        as (h' & l' & c' & Hloop & Hc' & Hcontent & Hkeep);
        [cbn; lia | exact Hacc | exact Hc1 | cbn [length] in Hfuel; cbn; lia |].
      cbn [frames accumulator scaled] in Hcontent.
      cbn in Hs1. rewrite Hset1, Hp1, Hlim1, Hs1 in Hcontent.
      destruct (limit_chunks _ _ _ _ _) as [lim' rest].
      cbn [MixerChannel.AddSamples_s16 MixerChannel.added] in Hcontent, Hkeep.
      rewrite length_app in Hcontent, Hkeep. cbn [length] in Hcontent, Hkeep.
      injection Hcontent as Hl' Hrest.
      exists h', l', c'. rewrite Hloop. split; [reflexivity|]. split; [exact Hc'|].
      assert (MixerChannel.added c'
              = (MixerChannel.added c ++ [(len, take (Z.to_nat (2 * len)) out)]) ++ rest)
        as Hadd.
      { rewrite <- (take_drop (length (MixerChannel.added c) + 1)
                               (MixerChannel.added c')).
        now rewrite Hkeep, Hrest. }
      rewrite Hadd, <- app_assoc. split.
      * rewrite drop_app_length. cbn. now rewrite Hl'.
      * now rewrite take_app_length.
  - apply Z.ltb_ge in Hpos. assert (frames l = 0) as Hz by lia.
    exists h, l, c. rewrite Hz, chunks_zero. cbn.
    split; [reflexivity|]. split; [exact Hc|].
    rewrite drop_all, firstn_all. split; reflexivity.
Qed.

End DeliveredSamples.

(** C2.  For every frame count [F] of a [uint16_t], with a frame bound of
    at least one and a budget above the number of deliveries, the callback
    returns; the channel has received, after what it already had and in
    this order, one delivery of [min (remaining, max)] frames per iteration;
    these sizes add up to [F]; and the synthesizer has advanced by exactly
    [F] frames.  The runs of frames behind the deliveries, put end to end,
    are the next [F] frames of the synthesizer, each once and in the order
    rendered; and, the scratch arrays being as large as two samples per
    frame of the bound, every delivery holds what the limiter made of its
    run, laid interleaved over the front of the scratch array. *)
Theorem MixerCallBack_delivers `{W : World} (F : Z) (h : MidiHandlerFluidsynth)
        (c : MixerChannel.t) (fuel : nat) :
  1 <= expected_max_frames ->
  0 <= F < 65536 ->
  channel h = Some c ->
  (length (chunks F) < fuel)%nat ->
  exists h' c' new,
    MixerCallBack fuel F h = Returns h'
    /\ channel h' = Some c'
    /\ MixerChannel.added c' = MixerChannel.added c ++ new
    /\ new.*1 = chunks F
    /\ chunks F = (if F =? 0 then []
                   else Z.min F expected_max_frames
                        :: chunks (F - Z.min F expected_max_frames))
    /\ foldr Z.add 0 new.*1 = F
    /\ MixerChannel.frames_added c' = MixerChannel.frames_added c + F
    /\ synth h' = advance (settings h) F <$> synth h
    /\ (pieces (settings h) (synth h) (chunks F)).*1 = chunks F
    /\ (forall s, synth h = Some s ->
          concat (pieces (settings h) (synth h) (chunks F)).*2
          = (render (settings h) s (Z.to_nat F)).2)
    /\ (expected_max_frames <= 32767 ->
        (soft_limiter h', new)
        = limit_chunks (prescale_volume h) (soft_limiter h)
            (replicate (Z.to_nat max_samples) (S754_zero false))
            (replicate (Z.to_nat max_samples) 0)
            (pieces (settings h) (synth h) (chunks F))).
Proof.
  intros Hm HF Hc Hfuel. unfold MixerCallBack.
  set (l := CallbackFrame F _ _).
  destruct (MixerCallBack_loop_spec fuel h l c Hm HF Hc Hfuel)
    as (h' & l' & c' & Hloop & _ & Hc' & (new & Hadd & Hnew) & _ & Hs & _).
  exists h', c', new. rewrite Hloop. cbn [frames l] in *.
  assert (foldr Z.add 0 new.*1 = F) as Hsum.
  { rewrite Hnew. apply chunks_sum; lia. }
  split; [reflexivity|]. split; [exact Hc'|]. split; [exact Hadd|].
  split; [exact Hnew|].
  split; [|split; [exact Hsum|split; [|split; [exact Hs|split; [|split]]]]].
  - destruct (F =? 0) eqn:E.
    + apply Z.eqb_eq in E. rewrite E. apply chunks_zero.
    + apply Z.eqb_neq in E. apply chunks_step; lia.
  - rewrite (frames_added_app c c' new Hadd), Hsum. reflexivity.
  - apply pieces_sizes.
  - intros s Hsy. rewrite Hsy, pieces_frames.
    + now rewrite chunks_sum by lia.
    + eapply Forall_impl; [apply chunks_bounded; lia|]. cbn. lia.
  - intros Hmax.
    destruct (MixerCallBack_loop_content fuel h l c ltac:(lia) HF
                ltac:(subst l; cbn; apply length_replicate) Hc Hfuel)
      as (h2 & l2 & c2 & Hloop2 & Hc2 & Hcontent & _).
    rewrite Hloop in Hloop2. injection Hloop2 as <- <-.
    rewrite Hc' in Hc2. injection Hc2 as <-.
    rewrite Hadd, drop_app_length in Hcontent. exact Hcontent.
Qed.

(** A request of fifty frames on the reference world, whose frame bound is
    48 and whose frame [n] is [(n, - n)]: a delivery of frames 0 to 47, then
    one of frames 48 and 49. *)
Lemma MixerCallBack_delivers_witness :
  exists h' c' new,
    MixerCallBack 3 50 Reference.opened = Returns h'
    /\ channel h' = Some c'
    /\ MixerChannel.added c' = [] ++ new
    /\ new
       = [(48,
         [0; 0; 1; (- 1); 2; (- 2); 3; (- 3); 4; (- 4); 5; (- 5); 6; (- 6);
          7; (- 7); 8; (- 8); 9; (- 9); 10; (- 10); 11; (- 11); 12; (- 12);
          13; (- 13); 14; (- 14); 15; (- 15); 16; (- 16); 17; (- 17); 18; (-
          18); 19; (- 19); 20; (- 20); 21; (- 21); 22; (- 22); 23; (- 23);
          24; (- 24); 25; (- 25); 26; (- 26); 27; (- 27); 28; (- 28); 29; (-
          29); 30; (- 30); 31; (- 31); 32; (- 32); 33; (- 33); 34; (- 34);
          35; (- 35); 36; (- 36); 37; (- 37); 38; (- 38); 39; (- 39); 40; (-
          40); 41; (- 41); 42; (- 42); 43; (- 43); 44; (- 44); 45; (- 45);
          46; (- 46); 47; (- 47)]);
          (2, [48; - 48; 49; - 49])].
Proof.
  destruct (MixerCallBack_delivers (W := Reference.world) 50
              Reference.opened
              (MixerChannel.make "FSYNTH" 44100 true true []) 3)
    as (h' & c' & new & Hr & Hc & Hadd & _ & _ & _ & _ & _ & _ & _ & Hcontent).
  - vm_compute. discriminate.
  - lia.
  - reflexivity.
  - vm_compute. lia.
  - exists h', c', new. split; [exact Hr|]. split; [exact Hc|]. split; [exact Hadd|].
    apply (f_equal snd) in Hcontent; [|vm_compute; discriminate].
    cbn [snd] in Hcontent. rewrite Hcontent. vm_compute. reflexivity.
Defined.

(** The frames of that request reach the channel in the order the
    synthesizer produced them: frame [n] of the reference synthesizer is
    [(n, - n)]. *)
Example MixerCallBack_in_order :
  (h ← MixerCallBack 3 50 Reference.opened;
   mret ((fun c => (MixerChannel.added c).*1) <$> channel h,
         (fun c => drop 92 (concat (MixerChannel.added c).*2)) <$> channel h))
  = Returns (Some [48; 2], Some [46; -46; 47; -47; 48; -48; 49; -49]).
Proof. vm_compute. reflexivity. Qed.

(** C9.  With a frame bound of at least one the callback ends: an iteration
    consumes [min (frames, max) >= 1] frames, so that the count goes
    strictly down, and the loop is its body run once per delivery, at most
    [F] times.  No budget above that number is used up, and the call
    returns when the channel is not null. *)
Theorem MixerCallBack_terminates `{W : World} (F : Z) (h : MidiHandlerFluidsynth) :
  1 <= expected_max_frames ->
  0 <= F < 65536 ->
  let n := length (chunks F) in
  Z.of_nat n <= F
  /\ (forall fuel l, frames l = F -> (n < fuel)%nat ->
        MixerCallBack_loop fuel h l = MixerCallBack_iterate n h l)
  /\ (forall fuel, (n < fuel)%nat ->
        MixerCallBack fuel F h <> OutOfFuel
        /\ (is_Some (channel h) -> exists h', MixerCallBack fuel F h = Returns h'))
  /\ (forall h0 l, 0 < frames l < 65536 ->
        1 <= Z.min (frames l) expected_max_frames
        /\ forall h1 l1, MixerCallBack_body h0 l = Returns (h1, l1) ->
             frames l1 = frames l - Z.min (frames l) expected_max_frames
             /\ 0 <= frames l1 < frames l).
Proof.
  intros Hm HF n. subst n. split; [|split; [|split]].
  - apply chunks_length; lia.
  - intros fuel l <- Hfuel. now apply MixerCallBack_loop_unroll.
  - intros fuel Hfuel. unfold MixerCallBack.
    set (l := CallbackFrame F _ _).
    rewrite (MixerCallBack_loop_unroll fuel h l Hm HF Hfuel). split.
    + pose proof (MixerCallBack_iterate_ends (length (chunks (frames l))) h l) as He.
      destruct (MixerCallBack_iterate _ h l) as [[h' l']| |];
        [discriminate | discriminate | contradiction].
    + intros [c Hc].
      rewrite <- (MixerCallBack_loop_unroll fuel h l Hm HF Hfuel).
      destruct (MixerCallBack_loop_spec fuel h l c Hm HF Hc Hfuel)
        as (h' & l' & _ & Hloop & _).
      exists h'. rewrite Hloop. reflexivity.
  - intros h0 l Hl. split; [lia|].
    intros h1 l1 Hb. apply MixerCallBack_body_frames in Hb.
    unfold uint16 in Hb. rewrite Z.mod_small in Hb by lia. lia.
Qed.

Lemma MixerCallBack_terminates_witness :
  exists h', MixerCallBack 5 (3 * 48 + 17) Reference.opened = Returns h'.
Proof.
  destruct (MixerCallBack_terminates (W := Reference.world) (3 * 48 + 17)
              Reference.opened) as (_ & _ & Hret & _).
  - vm_compute. discriminate.
  - lia.
  - apply (Hret 5%nat).
    + vm_compute. lia.
    + eexists. reflexivity.
Defined.

(** A header with a frame bound of zero would make the callback loop for
    ever on any request that is not empty. *)
Lemma MixerCallBack_needs_bound `{W : World} (F : Z) (h : MidiHandlerFluidsynth)
      (c : MixerChannel.t) (fuel : nat) :
  expected_max_frames = 0 ->
  0 < F < 65536 ->
  channel h = Some c ->
  MixerCallBack fuel F h = OutOfFuel.
Proof.
  intros Hm HF Hc. unfold MixerCallBack.
  rewrite (MixerCallBack_loop_stuck fuel h _ c Hm); [reflexivity|exact HF|exact Hc].
Qed.

(** * Further properties *)

(** ** [SetMixerVolume], continued *)

Section SetMixerVolumeMore.
Context `{W : World}.
Implicit Types (h : MidiHandlerFluidsynth) (v : AudioFrame.t).

Lemma settings_set_twice name val val' (s : gmap string setting) :
  is_Some (settings_store name val) ->
  settings_set name val (settings_set name val' s) = settings_set name val s.
Proof.
  intros [kept Hk]. unfold settings_set. rewrite Hk.
  destruct (settings_store name val'); [|reflexivity].
  apply insert_insert_eq.
Qed.

Lemma settings_set_again name val (s : gmap string setting) :
  settings_set name val (settings_set name val s) = settings_set name val s.
Proof.
  destruct (settings_store name val) as [kept|] eqn:Hk.
  - apply settings_set_twice. now exists kept.
  - unfold settings_set. now rewrite Hk.
Qed.

(** [SetMixerVolume] is a function of the desired volume, of the settings
    table it finds and of the rest of the handler. *)
Lemma SetMixerVolume_explicit v h :
  let gain := Float64.of_float (std_min (AudioFrame.left v) (AudioFrame.right v)) in
  let table := (fun s => fluid_settings_setnum s "synth.gain" gain) <$> settings h in
  let gain_f :=
    Float32.of_double
      (default gain (table ≫= fun s => fluid_settings_getnum s "synth.gain")) in
  SetMixerVolume v h =
  Handler _ table (synth h) (channel h) (is_open h)
    (AudioFrame.make
       (Float32.mul (Float32.of_int INT16_MAX) (Float32.div (AudioFrame.left v) gain_f))
       (Float32.mul (Float32.of_int INT16_MAX) (Float32.div (AudioFrame.right v) gain_f)))
    v (soft_limiter h).
Proof. reflexivity. Qed.

End SetMixerVolumeMore.

(** X1.  Setting the same volume twice is setting it once. *)
Theorem SetMixerVolume_twice `{W : World} (v : AudioFrame.t)
        (h : MidiHandlerFluidsynth) :
  SetMixerVolume v (SetMixerVolume v h) = SetMixerVolume v h.
Proof.
  rewrite (SetMixerVolume_explicit v (SetMixerVolume v h)).
  rewrite (SetMixerVolume_explicit v h). cbn.
  destruct (settings h) as [s|]; cbn; [|reflexivity].
  unfold fluid_settings_setnum. now rewrite settings_set_again.
Qed.

(** X2.  When the engine takes the gain of a volume, what an earlier call
    had set is forgotten: the handler is the one the later call alone
    gives. *)
Theorem SetMixerVolume_last_wins `{W : World} (v1 v2 : AudioFrame.t)
        (h : MidiHandlerFluidsynth) :
  is_Some (settings_store "synth.gain"
             (SetNum (Float64.of_float
                        (std_min (AudioFrame.left v2) (AudioFrame.right v2))))) ->
  SetMixerVolume v2 (SetMixerVolume v1 h) = SetMixerVolume v2 h.
Proof.
  intros Hk.
  rewrite (SetMixerVolume_explicit v2 (SetMixerVolume v1 h)).
  rewrite (SetMixerVolume_explicit v2 h), (SetMixerVolume_explicit v1 h). cbn.
  destruct (settings h) as [s|]; cbn; [|reflexivity].
  unfold fluid_settings_setnum. now rewrite settings_set_twice.
Qed.

Lemma SetMixerVolume_last_wins_witness :
  SetMixerVolume Reference.left_halved
    (SetMixerVolume Reference.left_muted Reference.opened)
  = SetMixerVolume Reference.left_halved Reference.opened.
Proof.
  apply (SetMixerVolume_last_wins Reference.left_muted Reference.left_halved
           Reference.opened).
  eexists. reflexivity.
Defined.



Example SetMixerVolume_too_loud :
  prescale_volume (SetMixerVolume ReferenceSysex.too_loud Reference.opened)
  = AudioFrame.make (Float32.of_int (20 * 32767)) (Float32.of_int (20 * 32767)).
Proof. vm_compute. reflexivity. Qed.

(** ** [std::min] on floats *)

Lemma SFcompare_refl (a : float) :
  a <> S754_nan -> SFcompare a a = Some Eq.
Proof.
  destruct a as [s|s| |s m e]; intros Ha; try congruence; destruct s; cbn;
    try reflexivity; now rewrite Z.compare_refl, Pos.compare_cont_refl.
Qed.

Lemma SFcompare_some (a b : float) :
  a <> S754_nan -> b <> S754_nan -> is_Some (SFcompare a b).
Proof.
  destruct a as [sa|sa| |sa ma ea], b as [sb|sb| |sb mb eb]; intros Ha Hb;
    try congruence; cbn; eexists; reflexivity.
Qed.

(** X4.  The gain is a true minimum when neither channel is a NaN: it is
    below or equal to both.  A NaN on the right channel is passed over, a
    NaN on the left channel is the result. *)
Theorem std_min_order (a b : float) :
  (a <> S754_nan -> b <> S754_nan ->
   SFleb (std_min a b) a = true /\ SFleb (std_min a b) b = true)
  /\ std_min a S754_nan = a
  /\ std_min S754_nan b = S754_nan.
Proof.
  split; [|split].
  - intros Ha Hb. unfold std_min, Float32.ltb, SFltb, SFleb.
    pose proof (SFcompare_swap b a) as Hsw.
    destruct (SFcompare_some b a Hb Ha) as [c Hc]. rewrite Hc in *.
    destruct c; cbn in Hsw; rewrite ?Hsw, ?Hc, ?SFcompare_refl by assumption;
      split; reflexivity.
  - unfold std_min. destruct a; reflexivity.
  - unfold std_min. destruct b; reflexivity.
Qed.

Lemma std_min_order_witness :
  SFleb (std_min (Reference.f32 1 2) (Reference.f32 1 1)) (Reference.f32 1 2) = true
  /\ SFleb (std_min (Reference.f32 1 2) (Reference.f32 1 1)) (Reference.f32 1 1) = true.
Proof.
  apply (std_min_order (Reference.f32 1 2) (Reference.f32 1 1)); discriminate.
Defined.

(** ** [Open] and [Close], continued *)

Section LifeCycleMore.
Context `{W : World}.
Implicit Types (h : MidiHandlerFluidsynth).

(** From a consistent state [Open] returns, and leaves a consistent state
    whose open flag is the result. *)
Lemma Open_consistent conf h :
  consistent h = true ->
  exists b h' tr,
    Open conf h = Returns (b, h', tr)
    /\ is_open h' = b /\ channel_enabled h' = b /\ consistent h' = true
    /\ soft_limiter h' = soft_limiter h
    /\ (b = true <->
        exists fresh sy, new_fluid_settings = Some fresh
                         /\ new_fluid_synth (Open_settings conf fresh) = Some sy).
Proof.
  intros Hc.
  destruct (Close_consistent h Hc) as (h1 & E & Ho & Hch & Hsy).
  assert (soft_limiter h1 = soft_limiter h) as Hlim.
  { unfold Close in E. destruct (is_open h); cbn in E.
    - destruct (channel h); cbn in E; [|discriminate]. now injection E as <-.
    - now injection E as <-. }
  unfold Open. rewrite E. cbn.
  destruct new_fluid_settings as [fs|] eqn:Hs.
  - fold (Open_settings conf fs).
    destruct (new_fluid_synth (Open_settings conf fs)) as [sy|] eqn:Hy.
    + unfold RegisterVolCallBack. cbn.
      destruct mixer_level as [level|]; cbn;
        (eexists _, _, _; split; [reflexivity|]; cbn;
         repeat split; auto; intros _; now exists fs, sy).
    + eexists _, _, _. split; [reflexivity|]. unfold channel_enabled. cbn.
      rewrite Hch. repeat split; auto.
      * apply consistent_closed; cbn; auto.
      * discriminate.
      * intros (fs' & sy' & [= <-] & Hy'). congruence.
  - eexists _, _, _. split; [reflexivity|]. unfold channel_enabled.
    rewrite Hch. repeat split; auto.
    + now apply consistent_closed.
    + discriminate.
    + intros (fs' & sy' & [=] & _).
Qed.

End LifeCycleMore.

(** X5.  From a consistent state [Open] always returns; its result is the
    open flag of the handler and tells whether the channel is enabled; it is
    true exactly when both the settings object and the synthesizer could be
    created. *)
Theorem Open_result `{W : World} (conf : config) (h : MidiHandlerFluidsynth) :
  consistent h = true ->
  exists b h' tr,
    Open conf h = Returns (b, h', tr)
    /\ is_open h' = b /\ channel_enabled h' = b /\ consistent h' = true
    /\ (b = true <->
        exists fresh sy, new_fluid_settings = Some fresh
                         /\ new_fluid_synth (Open_settings conf fresh) = Some sy).
Proof.
  intros Hc.
  destruct (Open_consistent conf h Hc) as (b & h' & tr & Ho & H1 & H2 & H3 & _ & H4).
  exists b, h', tr. auto.
Qed.

Lemma Open_result_witness :
  exists b h' tr,
    Open Reference.conf Reference.opened = Returns (b, h', tr)
    /\ is_open h' = b /\ channel_enabled h' = b /\ consistent h' = true
    /\ (b = true <->
        exists fresh sy,
          new_fluid_settings (World := Reference.world) = Some fresh
          /\ new_fluid_synth (World := Reference.world)
               (Open_settings (W := Reference.world) Reference.conf fresh)
             = Some sy).
Proof.
  apply (Open_result Reference.conf Reference.opened). reflexivity.
Defined.

(** X6.  [Open] starts by closing: opening a handler is closing it and
    opening what is left, whatever state it is in. *)
Theorem Open_closes_first `{W : World} (conf : config) (h : MidiHandlerFluidsynth) :
  Open conf h = (Close h ≫= Open conf).
Proof.
  unfold Open at 1.
  destruct (Close h) as [h1| |] eqn:E; cbn [mbind outcome_bind]; try reflexivity.
  unfold Open. rewrite (Close_closed h1); [reflexivity|].
  now apply Close_result in E.
Qed.

(** X7.  [Close] after [Open] releases what [Open] acquired: the handler is
    closed, without channel and synthesizer, and when [Open] had succeeded
    without settings either; the limiter is the one the handler had. *)
Theorem Open_then_Close `{W : World} (conf : config) (h : MidiHandlerFluidsynth) :
  consistent h = true ->
  exists b h' tr h'',
    Open conf h = Returns (b, h', tr)
    /\ Close h' = Returns h''
    /\ is_open h'' = false /\ channel h'' = None /\ synth h'' = None
    /\ (b = true -> settings h'' = None)
    /\ soft_limiter h'' = soft_limiter h.
Proof.
  intros Hc.
  destruct (Open_consistent conf h Hc)
    as (b & h' & tr & Ho & Hb & _ & Hc' & Hlim & _).
  destruct (Close_consistent h' Hc') as (h'' & E & Ho' & Hch & Hsy).
  exists b, h', tr, h''. repeat split; auto.
  - intros ->. apply Close_result in E as (_ & Hopen & _). now apply Hopen.
  - rewrite <- Hlim. unfold Close in E. destruct (is_open h'); cbn in E.
    + destruct (channel h'); cbn in E; [|discriminate]. now injection E as <-.
    + now injection E as <-.
Qed.

Lemma Open_then_Close_witness :
  exists b h' tr h'',
    Open Reference.conf (Reference.fresh (W := Reference.world) 0)
    = Returns (b, h', tr)
    /\ Close h' = Returns h''
    /\ is_open h'' = false /\ channel h'' = None /\ synth h'' = None
    /\ (b = true -> settings h'' = None)
    /\ soft_limiter h'' = 0.
Proof.
  apply (Open_then_Close Reference.conf (Reference.fresh (W := Reference.world) 0)).
  reflexivity.
Defined.

(** ** [PlaySysex] *)

Lemma to_int_small (z : Z) : 0 <= z <= INT_MAX -> to_int z = z.
Proof.
  unfold to_int, INT_MAX. intros Hz. rewrite Z.mod_small by lia. lia.
Qed.

Lemma to_int_large (z : Z) :
  INT_MAX < z < 2 ^ 32 -> to_int z = z - 2 ^ 32.
Proof.
  unfold to_int, INT_MAX. intros Hz.
  replace (z + 2 ^ 31) with ((z - 2 ^ 31) + 1 * 2 ^ 32) by lia.
  rewrite Z.mod_add by lia. rewrite Z.mod_small by lia. lia.
Qed.

(** X8.  [PlaySysex] hands the buffer to the engine as it is, with its
    length as long as the length fits an [int]; a length from 2^31 up to
    2^32 arrives as a negative number.  It touches nothing of the handler
    but the state of the synthesizer, which stays null if it was. *)
Theorem PlaySysex_forwards `{S : SysexWorld} (sysex : list byte) (len : Z)
        (h : MidiHandlerFluidsynth) :
  let '(h', call) := PlaySysex sysex len h in
  sysex_data call = sysex
  /\ (0 <= len <= INT_MAX -> sysex_len call = len)
  /\ (INT_MAX < len < 2 ^ 32 -> sysex_len call = len - 2 ^ 32 /\ sysex_len call < 0)
  /\ (is_open h' = is_open h /\ channel h' = channel h /\ settings h' = settings h
      /\ prescale_volume h' = prescale_volume h /\ mixer_volume h' = mixer_volume h
      /\ soft_limiter h' = soft_limiter h)
  /\ is_null (synth h') = is_null (synth h)
  /\ consistent h' = consistent h.
Proof.
  cbn. split; [reflexivity|]. split; [apply to_int_small|]. split.
  - intros Hl. rewrite to_int_large by exact Hl. unfold INT_MAX in Hl. lia.
  - unfold consistent. cbn. destruct (synth h); repeat split.
Qed.

Lemma PlaySysex_forwards_witness :
  sysex_len (PlaySysex (S := ReferenceSysex.sysex) [xf0; x7e; x7f; x09; x01; xf7] 6
                       Reference.opened).2 = 6
  /\ sysex_len (PlaySysex (S := ReferenceSysex.sysex) [] (2 ^ 31)
                          Reference.opened).2 = - 2 ^ 31.
Proof.
  split.
  - apply (PlaySysex_forwards (S := ReferenceSysex.sysex)
             [xf0; x7e; x7f; x09; x01; xf7] 6 Reference.opened).
    unfold INT_MAX. lia.
  - apply (PlaySysex_forwards (S := ReferenceSysex.sysex) [] (2 ^ 31)
             Reference.opened).
    unfold INT_MAX. lia.
Defined.

(** ** The invariant of the handler *)

(** X9.  Consistency is kept by every call of the interface that returns:
    [Open], [Close], [SetMixerVolume], [PlayMsg], [PlaySysex] and
    [MixerCallBack], in any number and order. *)
Theorem consistent_invariant `{S : SysexWorld} (h h' : MidiHandlerFluidsynth) :
  consistent h = true -> rtc step h h' -> consistent h' = true.
Proof.
  intros Hc Hsteps. induction Hsteps as [h|h h1 h2 Hstep _ IH]; [exact Hc|].
  apply IH. clear IH h2. destruct Hstep as
    [conf h b h' tr Ho | h h' Hcl | v h | msg h h' tr Hp | sysex len h
    | fuel n h h' Hm].
  - destruct (Open_consistent conf h Hc) as (b0 & h0 & tr0 & Ho' & _ & _ & Hc' & _).
    rewrite Ho in Ho'. now injection Ho' as -> -> ->.
  - destruct (Close_consistent h Hc) as (h0 & E & Ho & Hch & Hsy).
    rewrite Hcl in E. injection E as ->. now apply consistent_closed.
  - now rewrite SetMixerVolume_consistent.
  - now rewrite (PlayMsg_consistent msg h h' tr Hp).
  - unfold consistent in *. cbn. destruct (synth h); exact Hc.
  - now rewrite (MixerCallBack_consistent fuel n h h' Hm).
Qed.

(** The reference handler, after a system-exclusive message and a new
    volume. *)
Lemma consistent_invariant_witness :
  consistent
    (SetMixerVolume Reference.left_halved
       (PlaySysex (S := ReferenceSysex.sysex) [xf0; xf7] 2 Reference.opened).1)
  = true.
Proof.
  apply (consistent_invariant (S := ReferenceSysex.sysex) Reference.opened).
  - reflexivity.
  - eapply rtc_l; [apply (step_PlaySysex [xf0; xf7] 2)|].
    apply rtc_once. apply step_SetMixerVolume.
Defined.

(** ** The configuration section *)

Lemma on_last_app (f : Property -> Property) (sec : list Property) (p : Property) :
  on_last f (sec ++ [p]) = sec ++ [f p].
Proof.
  unfold on_last. rewrite reverse_app, reverse_singleton. cbn [app].
  now rewrite reverse_cons, reverse_involutive.
Qed.

Lemma init_fluid_dosbox_settings_appends (sec : list Property) :
  init_fluid_dosbox_settings sec = sec ++ init_fluid_dosbox_settings [].
Proof.
  unfold init_fluid_dosbox_settings at 1, Add_string, Add_int, Set_help, SetMinMax.
  rewrite !on_last_app. cbn. rewrite <- !app_assoc. reflexivity.
Qed.

Lemma admits_init (conf : config) :
  admits (init_fluid_dosbox_settings []) conf = true
  <-> 8000 <= fluid_rate conf <= 96000 /\ 1 <= synth_threads conf <= 256.
Proof.
  unfold admits, admits_string, admits_int. cbn.
  rewrite !andb_true_iff, !Z.leb_le. tauto.
Qed.

(** X10.  [init_fluid_dosbox_settings] only adds to a section: what the
    section held stays in front, unchanged, followed by the three properties
    it adds to an empty one.  These give the configuration an empty
    soundfont path, a rate of 44100 and one thread, and admit exactly the
    rates from 8000 to 96000 and the thread counts from 1 to 256. *)
Theorem init_fluid_dosbox_settings_section (sec : list Property) (conf : config) :
  init_fluid_dosbox_settings sec = sec ++ init_fluid_dosbox_settings []
  /\ propname <$> init_fluid_dosbox_settings []
     = ["soundfont"; "fluid_rate"; "synth_threads"]%string
  /\ default_config (init_fluid_dosbox_settings []) = Some (Config "" 44100 1)
  /\ (admits (init_fluid_dosbox_settings []) conf = true
      <-> 8000 <= fluid_rate conf <= 96000 /\ 1 <= synth_threads conf <= 256).
Proof.
  split; [|split; [reflexivity|split; [reflexivity|]]].
  - apply init_fluid_dosbox_settings_appends.
  - apply admits_init.
Qed.

(** X11.  For every configuration the section admits, the cast of the
    sample rate to [unsigned] loses nothing: the channel a successful [Open]
    creates runs at the configured rate.  It is called FSYNTH, has the
    volume callback registered, is enabled, and has received no samples. *)
Theorem Open_channel `{W : World} (conf : config) (h h' : MidiHandlerFluidsynth)
        (tr : list event) :
  admits (init_fluid_dosbox_settings []) conf = true ->
  Open conf h = Returns (true, h', tr) ->
  channel h' = Some (MixerChannel.make "FSYNTH" (fluid_rate conf) true true []).
Proof.
  intros Ha Ho.
  apply admits_init in Ha.
  revert Ho. unfold Open.
  destruct (Close h) as [h1| |]; cbn; try discriminate.
  destruct new_fluid_settings as [fs|]; [|intros [=]].
  destruct (new_fluid_synth _) as [sy|]; [|intros [=]].
  unfold RegisterVolCallBack. cbn.
  rewrite Z.mod_small by lia.
  destruct mixer_level as [level|]; cbn; intros [= <- _]; reflexivity.
Qed.

Lemma Open_channel_witness :
  channel Reference.opened
  = Some (MixerChannel.make "FSYNTH" (fluid_rate Reference.conf) true true []).
Proof.
  apply (Open_channel Reference.conf (Reference.fresh (W := Reference.world) 0)
           Reference.opened
           [DEBUG_LOG_MSG "MIDI: FluidSynth loaded %d SoundFont files" (Some 0)]).
  - reflexivity.
  - reflexivity.
Defined.

(** A rate that no section admits, 2^32 + 8000, would reach the mixer as
    8000. *)
Example Open_rate_wraps :
  (r ← Open (W := Reference.world) (Config "" (2 ^ 32 + 8000) 1)
            (Reference.fresh (W := Reference.world) 0);
   mret (MixerChannel.rate <$> channel r.1.2))
  = Returns (Some 8000).
Proof. reflexivity. Qed.

(** ** [PlayMsg], continued *)

Section DispatchMore.
Context `{W : World}.
Implicit Types (h : MidiHandlerFluidsynth) (msg : list byte).

Lemma byte_at_absent msg (i : nat) :
  (length msg <= i)%nat -> byte_at msg i = Undefined.
Proof.
  intros Hi. unfold byte_at. now rewrite (lookup_ge_None_2 msg i Hi).
Qed.

Lemma data_bytes_recognized status :
  recognized status = true -> data_bytes status = 1%nat \/ data_bytes status = 2%nat.
Proof.
  unfold recognized, data_bytes. intros Hr.
  apply andb_true_iff in Hr as [Hl Hu]. apply Z.leb_le in Hl, Hu.
  repeat case_match; auto; lia.
Qed.

(** The dispatcher on a buffer that holds the bytes it reads. *)
Lemma dispatch_returns msg h status :
  msg !! 0%nat = Some status ->
  (bytes_read (byte_val status) <= length msg)%nat ->
  exists r, dispatch msg h = Returns r.
Proof.
  intros H0 Hlen. unfold dispatch, bytes_read in *.
  rewrite (byte_at_lookup msg 0 status H0). cbn.
  destruct (recognized (byte_val status)) eqn:Hr.
  - rewrite (byte_at_present msg 1)
      by (pose proof (recognized_data_bytes _ Hr); lia). cbn.
    destruct (proj2 (dispatch_table_recognized (byte_val status)
                       (byte_or_zero msg 1) (byte_or_zero msg 2)) Hr) as [c Hc].
    destruct (Nat.eqb _ 2) eqn:E.
    + apply Nat.eqb_eq in E. rewrite (byte_at_present msg 2) by lia. cbn.
      rewrite Hc. eexists. reflexivity.
    + cbn. rewrite (dispatch_table_one_byte _ _ 0 (byte_or_zero msg 2) E), Hc.
      eexists. reflexivity.
  - unfold memcpy_u64. destruct (decide (8 <= length msg)%nat); [|lia].
    eexists. reflexivity.
Qed.

Lemma dispatch_undefined msg h :
  (forall status, msg !! 0%nat = Some status ->
                  (length msg < bytes_read (byte_val status))%nat) ->
  dispatch msg h = Undefined.
Proof.
  intros Hshort. unfold dispatch.
  destruct (msg !! 0%nat) as [status|] eqn:H0.
  - specialize (Hshort status eq_refl). unfold bytes_read in Hshort.
    rewrite (byte_at_lookup msg 0 status H0). cbn.
    destruct (recognized (byte_val status)) eqn:Hr.
    + destruct (decide (2 <= length msg)%nat) as [H2|H2].
      * rewrite (byte_at_present msg 1) by lia. cbn.
        destruct (data_bytes_recognized _ Hr) as [Hd|Hd]; rewrite Hd in *; [lia|].
        cbn. rewrite (byte_at_absent msg 2) by lia. reflexivity.
      * rewrite (byte_at_absent msg 1) by lia. reflexivity.
    + unfold memcpy_u64. destruct (decide (8 <= length msg)%nat); [lia|].
      reflexivity.
  - unfold byte_at. rewrite H0. reflexivity.
Qed.

End DispatchMore.

(** X12.  [PlayMsg] returns exactly when the buffer holds the bytes it
    reads: the status byte and the data bytes of its class, or eight bytes
    when the class is unknown.  On any shorter buffer, the empty one
    included, it reads past the end. *)
Theorem PlayMsg_reads `{W : World} (msg : list byte) (h : MidiHandlerFluidsynth) :
  ((exists r, PlayMsg msg h = Returns r)
   <-> exists status, msg !! 0%nat = Some status
                      /\ (bytes_read (byte_val status) <= length msg)%nat)
  /\ ((forall status, msg !! 0%nat = Some status ->
                      (length msg < bytes_read (byte_val status))%nat)
      <-> PlayMsg msg h = Undefined).
Proof.
  rewrite PlayMsg_dispatch.
  assert ((exists status, msg !! 0%nat = Some status
                          /\ (bytes_read (byte_val status) <= length msg)%nat)
          \/ (forall status, msg !! 0%nat = Some status ->
                             (length msg < bytes_read (byte_val status))%nat))
    as [(status & H0 & Hlen)|Hshort].
  { destruct (msg !! 0%nat) as [status|]; [|right; discriminate].
    destruct (decide (bytes_read (byte_val status) <= length msg)%nat).
    - left. now exists status.
    - right. intros ? [= <-]. lia. }
  - destruct (dispatch_returns msg h status H0 Hlen) as [r Hr]. rewrite Hr.
    split; split.
    + intros _. now exists status.
    + intros _. now exists r.
    + intros Hshort. specialize (Hshort status H0). lia.
    + discriminate.
  - rewrite (dispatch_undefined msg h Hshort). split; split.
    + intros [r [=]].
    + intros (status & H0 & Hlen). specialize (Hshort status H0). lia.
    + reflexivity.
    + intros _. exact Hshort.
Qed.

(** The host's buffer with a note on is long enough; the empty buffer is
    not. *)
Lemma PlayMsg_reads_witness :
  (exists r, PlayMsg ReferenceSysex.note_on Reference.opened = Returns r)
  /\ PlayMsg [] Reference.opened = Undefined.
Proof.
  split.
  - apply (PlayMsg_reads ReferenceSysex.note_on Reference.opened).
    exists x90. split; [reflexivity|]. vm_compute. lia.
  - apply (PlayMsg_reads [] Reference.opened). discriminate.
Defined.

Section DispatchPrefix.
Context `{W : World}.
Implicit Types (h : MidiHandlerFluidsynth) (msg : list byte).

Lemma byte_at_take msg (n i : nat) :
  (i < n)%nat -> byte_at (take n msg) i = byte_at msg i.
Proof. intros Hi. unfold byte_at. now rewrite lookup_take_lt. Qed.

Lemma dispatch_take msg h status :
  msg !! 0%nat = Some status ->
  (bytes_read (byte_val status) <= length msg)%nat ->
  dispatch (take (bytes_read (byte_val status)) msg) h = dispatch msg h.
Proof.
  intros H0 Hlen. unfold dispatch, bytes_read in *.
  destruct (recognized (byte_val status)) eqn:Hr.
  - pose proof (recognized_data_bytes _ Hr) as Hd.
    rewrite (byte_at_take msg _ 0), (byte_at_take msg _ 1) by lia.
    rewrite (byte_at_lookup msg 0 status H0). cbn. rewrite Hr.
    destruct (byte_at msg 1) as [d1| |]; cbn; try reflexivity.
    destruct (Nat.eqb _ 2) eqn:E; [|reflexivity].
    apply Nat.eqb_eq in E. rewrite (byte_at_take msg _ 2) by lia. reflexivity.
  - rewrite (byte_at_take msg _ 0) by lia.
    rewrite (byte_at_lookup msg 0 status H0). cbn. rewrite Hr.
    unfold memcpy_u64. rewrite length_take, take_take, Nat.min_id.
    destruct (decide (8 <= length msg)%nat); [|lia].
    destruct (decide (8 <= 8 `min` length msg)%nat); [reflexivity|lia].
Qed.

End DispatchPrefix.

(** X13.  [PlayMsg] looks at no byte beyond those it reads: whatever
    follows them in the buffer, the outcome is the one of the message
    alone. *)
Theorem PlayMsg_ignores_rest `{W : World} (msg : list byte)
        (h : MidiHandlerFluidsynth) (status : byte) :
  msg !! 0%nat = Some status ->
  (bytes_read (byte_val status) <= length msg)%nat ->
  PlayMsg msg h = PlayMsg (take (bytes_read (byte_val status)) msg) h.
Proof.
  intros H0 Hlen. rewrite !PlayMsg_dispatch. symmetry. now apply dispatch_take.
Qed.

Lemma PlayMsg_ignores_rest_witness :
  PlayMsg ReferenceSysex.note_on_dirty Reference.opened
  = PlayMsg [x90; x3c; x64] Reference.opened.
Proof.
  apply (PlayMsg_ignores_rest ReferenceSysex.note_on_dirty Reference.opened x90).
  - reflexivity.
  - vm_compute. lia.
Defined.

(** X14.  A message that returns has made exactly one event, an engine
    call on a channel from 0 to 15 or a log line, and has changed nothing
    of the handler but the state of the synthesizer. *)
Theorem PlayMsg_one_event `{W : World} (msg : list byte)
        (h h' : MidiHandlerFluidsynth) (tr : list event) :
  PlayMsg msg h = Returns (h', tr) ->
  ((exists c, tr = [EngineCall c] /\ 0 <= call_channel c <= 15
              /\ synth h' = synth_call c <$> synth h)
   \/ (tr = [unknown_command msg] /\ synth h' = synth h))
  /\ is_open h' = is_open h /\ channel h' = channel h /\ settings h' = settings h
  /\ prescale_volume h' = prescale_volume h /\ mixer_volume h' = mixer_volume h
  /\ soft_limiter h' = soft_limiter h.
Proof.
  rewrite PlayMsg_dispatch. unfold dispatch.
  destruct (byte_at msg 0) as [status| |]; cbn; try discriminate.
  destruct (recognized status).
  - destruct (byte_at msg 1) as [d1| |]; cbn; try discriminate.
    destruct (if Nat.eqb _ 2 then _ else _) as [d2| |]; cbn; try discriminate.
    destruct (dispatch_table status d1 d2) as [c|] eqn:Hc; cbn; try discriminate.
    intros [= <- <-]. cbn. split; [|repeat split].
    left. exists c. split; [reflexivity|]. split; [|reflexivity].
    rewrite (dispatch_table_channel _ _ _ _ Hc).
    pose proof (Z.mod_pos_bound status 16). lia.
  - unfold memcpy_u64. destruct (decide (8 <= length msg)%nat); cbn; try discriminate.
    intros [= <- <-]. split; [|repeat split]. right. split; reflexivity.
Qed.

Lemma PlayMsg_one_event_witness :
  exists h', PlayMsg ReferenceSysex.note_on Reference.opened
             = Returns (h', [EngineCall (fluid_synth_noteon 0 60 100)])
             /\ channel h' = channel Reference.opened
             /\ settings h' = settings Reference.opened.
Proof.
  eexists. split; [reflexivity|].
  match goal with
  | |- channel ?x = _ /\ _ =>
      pose proof (PlayMsg_one_event ReferenceSysex.note_on Reference.opened x
                    [EngineCall (fluid_synth_noteon 0 60 100)] eq_refl)
        as (_ & _ & Hc & Hs & _)
  end.
  split; [exact Hc | exact Hs].
Defined.

Lemma shiftl_7 (z : Z) : Z.shiftl z 7 = z * 128.
Proof. now rewrite Z.shiftl_mul_pow2 by lia. Qed.

(** X15.  A pitch bend message is one bend call whose value is
    [data1 + 128 * data2], between 0 and 32895.  When both data bytes are
    7-bit, as MIDI has them, the value is a 14-bit number from which both
    bytes can be read back; the dispatcher itself does not mask them. *)
Theorem PlayMsg_pitch_bend `{W : World} (status b1 b2 : byte) (rest : list byte)
        (h : MidiHandlerFluidsynth) :
  byte_val status / 16 = 14 ->
  let v := byte_val b1 + 128 * byte_val b2 in
  PlayMsg (status :: b1 :: b2 :: rest) h
  = Returns (to_synth (fluid_synth_pitch_bend (Z.land (byte_val status) 0x0F) v) h)
  /\ 0 <= v <= 32895
  /\ (byte_val b1 < 128 -> byte_val b2 < 128 ->
      v < 16384 /\ v mod 128 = byte_val b1 /\ v / 128 = byte_val b2).
Proof.
  intros Hs v. subst v.
  pose proof (byte_val_range status). pose proof (byte_val_range b1).
  pose proof (byte_val_range b2).
  split; [|split; [lia|]].
  - rewrite PlayMsg_dispatch. unfold dispatch. cbn.
    fold (byte_val status) (byte_val b1) (byte_val b2).
    unfold recognized, data_bytes, dispatch_table. rewrite Hs. cbn.
    rewrite shiftl_7, low_nibble.
    do 3 f_equal. f_equal. lia.
  - intros Hb1 Hb2. split; [lia|]. split.
    + replace (byte_val b1 + 128 * byte_val b2)
        with (byte_val b1 + byte_val b2 * 128) by lia.
      rewrite Z.mod_add by lia. apply Z.mod_small. lia.
    + replace (byte_val b1 + 128 * byte_val b2)
        with (byte_val b1 + byte_val b2 * 128) by lia.
      rewrite Z.div_add by lia. rewrite Z.div_small by lia. lia.
Qed.

(** The highest 14-bit bend, on channel 3. *)
Lemma PlayMsg_pitch_bend_witness :
  PlayMsg [xe3; x7f; x7f] Reference.opened
  = Returns (to_synth (fluid_synth_pitch_bend 3 16383) Reference.opened).
Proof.
  apply (PlayMsg_pitch_bend xe3 x7f x7f [] Reference.opened). reflexivity.
Defined.

(** Data bytes with the high bit set go through unmasked. *)
Example PlayMsg_pitch_bend_unmasked :
  (r ← PlayMsg [xe0; xff; xff] Reference.opened; mret r.2)
  = Returns [EngineCall (fluid_synth_pitch_bend 0 32895)].
Proof. reflexivity. Qed.

(** ** The number in the log of an unknown message *)

Lemma land_low_high (x y : Z) : 0 <= x < 256 -> Z.land x (Z.shiftl y 8) = 0.
Proof.
  intros Hx. apply Z.bits_inj'. intros n Hn.
  rewrite Z.land_spec, Z.bits_0.
  destruct (Z.ltb_spec n 8) as [Hlt|Hge].
  - rewrite Z.shiftl_spec_low by lia. apply andb_false_r.
  - destruct (Z.eq_dec x 0) as [->|Hnz]; [now rewrite Z.bits_0|].
    rewrite (Z.bits_above_log2 x n); [reflexivity|lia|].
    assert (Z.log2 x < 8) by (apply Z.log2_lt_pow2; lia). lia.
Qed.

Lemma le_combine_cons (b : byte) (bs : list byte) :
  le_combine (b :: bs) = byte_val b + 256 * le_combine bs.
Proof.
  cbn [le_combine]. fold (byte_val b).
  pose proof (Z.add_lor_land (byte_val b) (Z.shiftl (le_combine bs) 8)) as Hadd.
  rewrite land_low_high in Hadd by apply byte_val_range.
  rewrite Z.shiftl_mul_pow2 in * by lia. lia.
Qed.

Lemma le_combine_range (bs : list byte) :
  0 <= le_combine bs < 256 ^ Z.of_nat (length bs).
Proof.
  induction bs as [|b bs IH]; [cbn; lia|].
  rewrite le_combine_cons. cbn [length]. rewrite Nat2Z.inj_succ, Z.pow_succ_r by lia.
  pose proof (byte_val_range b). lia.
Qed.

Lemma byte_val_inj (b b' : byte) : byte_val b = byte_val b' -> b = b'.
Proof.
  unfold byte_val. intros Hb. apply N2Z.inj in Hb.
  pose proof (Byte.of_to_N b) as E. rewrite Hb, Byte.of_to_N in E. congruence.
Qed.

(** X16.  The number an unknown message is logged as fits 64 bits and
    holds the eight bytes copied, the first byte lowest: they can be read
    back from it, so that two buffers with the same log line start with the
    same eight bytes. *)
Theorem unknown_log_round_trip (msg : list byte) :
  (8 <= length msg)%nat ->
  0 <= le_combine (take 8 msg) < 2 ^ 64
  /\ le_split 8 (le_combine (take 8 msg)) = byte_val <$> take 8 msg
  /\ forall msg', (8 <= length msg')%nat ->
       unknown_command msg = unknown_command msg' -> take 8 msg = take 8 msg'.
Proof.
  intros Hlen.
  assert (forall bs : list byte,
             le_split (length bs) (le_combine bs) = byte_val <$> bs) as Hsplit.
  { induction bs as [|b bs IH]; [reflexivity|].
    rewrite le_combine_cons. cbn [length le_split fmap list_fmap].
    pose proof (byte_val_range b).
    replace (byte_val b + 256 * le_combine bs)
      with (byte_val b + le_combine bs * 256) by lia.
    rewrite Z.mod_add, Z.div_add, Z.mod_small, Z.div_small by lia.
    f_equal. exact IH. }
  assert (forall m : list byte, (8 <= length m)%nat -> length (take 8 m) = 8%nat)
    as Htake by (intros m Hm; rewrite length_take; lia).
  split; [|split].
  - pose proof (le_combine_range (take 8 msg)) as Hr.
    rewrite (Htake msg Hlen) in Hr. exact Hr.
  - rewrite <- (Htake msg Hlen) at 1. apply Hsplit.
  - intros msg' Hlen' Heq. unfold unknown_command, unknown_log in Heq.
    injection Heq as Heq.
    assert (byte_val <$> take 8 msg = byte_val <$> take 8 msg') as Hb.
    { rewrite <- (Hsplit (take 8 msg)), <- (Hsplit (take 8 msg')).
      now rewrite (Htake msg Hlen), (Htake msg' Hlen'), Heq. }
    revert Hb. generalize (take 8 msg) (take 8 msg'). clear.
    induction l as [|b l IH]; intros [|b' l']; cbn; try discriminate; [reflexivity|].
    intros [= Hb Hl]. f_equal; [now apply byte_val_inj | now apply IH].
Qed.

Lemma unknown_log_round_trip_witness :
  le_split 8 (le_combine (take 8 [xf8; x01; x02; x03; x04; x05; x06; x07; x08]))
  = [248; 1; 2; 3; 4; 5; 6; 7].
Proof.
  apply (unknown_log_round_trip [xf8; x01; x02; x03; x04; x05; x06; x07; x08]).
  cbn. lia.
Defined.

(** ** [MixerCallBack], continued *)

Section RenderLoopMore.
Context `{W : World}.
Implicit Types (h : MidiHandlerFluidsynth) (l : callback_frame).

Lemma MixerCallBack_loop_keeps (fuel : nat) h l h' l' :
  MixerCallBack_loop fuel h l = Returns (h', l') ->
  is_open h' = is_open h /\ settings h' = settings h
  /\ is_null (channel h') = is_null (channel h)
  /\ is_null (synth h') = is_null (synth h)
  /\ prescale_volume h' = prescale_volume h /\ mixer_volume h' = mixer_volume h.
Proof.
  revert h l. induction fuel as [|fuel IH]; intros h l Hl; [discriminate|].
  cbn [MixerCallBack_loop] in Hl. destruct (0 <? frames l).
  - destruct (MixerCallBack_body h l) as [[h1 l1]| |] eqn:Hb; try discriminate Hl.
    cbn in Hl. apply IH in Hl as (Ho & Hs & Hc & Hy & Hp & Hv).
    apply MixerCallBack_body_keeps in Hb as (Ho1 & Hs1 & Hc1 & Hy1 & Hp1 & Hv1).
    repeat split; congruence.
  - injection Hl as <- _. repeat split.
Qed.

Lemma chunks_single (n : Z) :
  0 < n <= expected_max_frames -> chunks n = [n].
Proof.
  intros Hn. rewrite chunks_step by lia.
  rewrite Z.min_l by lia. now rewrite Z.sub_diag, chunks_zero.
Qed.

End RenderLoopMore.

(** X17.  A request of no frame returns at once, with the handler as it
    was, even a closed one.  A request of at least one frame on a handler
    without channel dereferences the null channel: the callback does not
    look at the open flag. *)
Theorem MixerCallBack_edges `{W : World} (fuel : nat) (F : Z)
        (h : MidiHandlerFluidsynth) :
  MixerCallBack (S fuel) 0 h = Returns h
  /\ (channel h = None -> 0 < F -> MixerCallBack (S fuel) F h = Undefined).
Proof.
  split; [reflexivity|].
  intros Hc HF. unfold MixerCallBack.
  rewrite MixerCallBack_loop_null by exact Hc. cbn [frames].
  destruct (0 <? F) eqn:E; [reflexivity|]. apply Z.ltb_ge in E. lia.
Qed.

Lemma MixerCallBack_edges_witness :
  MixerCallBack 1 1 (Reference.fresh (W := Reference.world) 0) = Undefined.
Proof.
  apply (MixerCallBack_edges 0 1 (Reference.fresh (W := Reference.world) 0));
    [reflexivity|lia].
Defined.

(** X18.  The callback changes neither the open flag, nor the settings,
    nor the pre-scale and mixer volumes, and makes no handle null or
    non-null. *)
Theorem MixerCallBack_frame `{W : World} (fuel : nat) (F : Z)
        (h h' : MidiHandlerFluidsynth) :
  MixerCallBack fuel F h = Returns h' ->
  is_open h' = is_open h /\ settings h' = settings h
  /\ is_null (channel h') = is_null (channel h)
  /\ is_null (synth h') = is_null (synth h)
  /\ prescale_volume h' = prescale_volume h /\ mixer_volume h' = mixer_volume h.
Proof.
  unfold MixerCallBack. set (l := CallbackFrame F _ _).
  destruct (MixerCallBack_loop fuel h l) as [[h1 l1]| |] eqn:Hl; try discriminate.
  intros [= <-]. now apply MixerCallBack_loop_keeps in Hl.
Qed.

Lemma MixerCallBack_frame_witness :
  exists h', MixerCallBack 2 10 Reference.opened = Returns h'
             /\ prescale_volume h' = prescale_volume Reference.opened
             /\ settings h' = settings Reference.opened.
Proof.
  assert (exists h', MixerCallBack 2 10 Reference.opened = Returns h') as [h' Hr].
  { unfold MixerCallBack. set (l := CallbackFrame 10 _ _).
    destruct (MixerCallBack_loop_spec (W := Reference.world) 2 Reference.opened l
                (MixerChannel.make "FSYNTH" 44100 true true []))
      as (h' & l' & _ & Hloop & _);
      [vm_compute; discriminate | cbn; lia | reflexivity | vm_compute; lia |].
    exists h'. rewrite Hloop. reflexivity. }
  exists h'. split; [exact Hr|].
  pose proof (MixerCallBack_frame 2 10 Reference.opened h' Hr)
    as (_ & Hs & _ & _ & Hp & _).
  split; [exact Hp | exact Hs].
Defined.





(** X21.  With a frame bound of at most 32767 a chunk always fits the
    scratch array: after an iteration the array has the length it had, the
    frames the synthesizer rendered lie interleaved at its front, left
    sample first, and the slots behind them are as they were. *)
Theorem MixerCallBack_body_interleaves `{W : World} (h : MidiHandlerFluidsynth)
        (l : callback_frame) (s : synth_t) (c : MixerChannel.t) :
  0 <= expected_max_frames <= 32767 ->
  0 <= frames l ->
  length (accumulator l) = Z.to_nat max_samples ->
  synth h = Some s -> channel h = Some c ->
  let len := Z.to_nat (Z.min (frames l) expected_max_frames) in
  (2 * len <= length (accumulator l))%nat
  /\ exists h' l',
       MixerCallBack_body h l = Returns (h', l')
       /\ length (accumulator l') = length (accumulator l)
       /\ (forall (i : nat) f,
             (render (settings h) s len).2 !! i = Some f ->
             accumulator l' !! (2 * i)%nat = Some (AudioFrame.left f)
             /\ accumulator l' !! (2 * i + 1)%nat = Some (AudioFrame.right f))
       /\ (forall j : nat, (2 * len <= j)%nat ->
             accumulator l' !! j = accumulator l !! j).
Proof.
  intros Hm Hf Hlen Hs Hc len.
  assert (2 * len <= length (accumulator l))%nat as Hroom.
  { pose proof (chunk_fits_scratch (frames l) Hm). subst len. lia. }
  split; [exact Hroom|].
  pose proof (fluid_synth_write_float_interleaved (settings h) s
                (Z.min (frames l) expected_max_frames) (accumulator l) Hroom)
    as Hw.
  unfold MixerCallBack_body. rewrite Hs.
  destruct (fluid_synth_write_float _ _ _ _ _ _ _ _) as [sy acc]. cbn [snd] in Hw.
  destruct (limiter_apply _ _ _ _ _) as [lim out]. cbn. rewrite Hc. cbn.
  eexists _, _. split; [reflexivity|]. exact Hw.
Qed.

(** The first iteration of a request of 50 frames on the reference
    handler: frame 5 of the synthesizer is in slots 10 and 11. *)
Lemma MixerCallBack_body_interleaves_witness :
  exists h' l',
    MixerCallBack_body Reference.opened
      (CallbackFrame 50 (replicate 96 (S754_zero false)) (replicate 96 0))
    = Returns (h', l')
    /\ accumulator l' !! 10%nat = Some (Reference.f32 5 1)
    /\ accumulator l' !! 11%nat = Some (Reference.f32 (-5) 1).
Proof.
  destruct (MixerCallBack_body_interleaves (W := Reference.world) Reference.opened
              (CallbackFrame 50 (replicate 96 (S754_zero false)) (replicate 96 0))
              (Reference.SynthState [] 0 [])
              (MixerChannel.make "FSYNTH" 44100 true true []))
    as (_ & h' & l' & Hb & _ & Hi & _).
  - vm_compute. split; discriminate.
  - cbn. lia.
  - reflexivity.
  - reflexivity.
  - reflexivity.
  - exists h', l'. split; [exact Hb|].
    apply (Hi 5%nat (AudioFrame.make (Reference.f32 5 1) (Reference.f32 (-5) 1))).
    reflexivity.
Defined.
